(** * DGS-CSLT-app: the capture-to-sequence pipeline and the translation handler

    A shallow embedding of the parts of [src/src/App.jsx] (the component that
    [src/src/index.js] renders) and of the second component source
    [src/unnamed/part_000] that the specification talks about:

    - [extractTwoHandLandmarks], the frame encoder;
    - [uniformTruncate] and the truncate-or-pad step around it, the sequence
      normalizer;
    - [handleTranslate], the translation orchestrator, as a state transformer
      over the component's React state, with the browser (clock, detector,
      network, camera) as an explicit environment.

    JavaScript values are modelled untyped where the code treats them so:
    a frame is an array of arrays of numbers, and reading an array out of
    range yields [Undefined].  Numbers that are coordinates are IEEE-754
    doubles ([PrimFloat.float]); numbers that are lengths and indices are
    integers ([Z]), on which [Math.floor (a / b)] is [a / b] for [b > 0]
    (the quotient of two such doubles floors to the same integer as long as
    [a] stays below 2^53). *)

From Stdlib Require Import String Ascii ZArith List Lia Bool DecimalString.
From Stdlib Require Import RelationClasses Sorted.
From Stdlib Require Import Floats.PrimFloat.
Import ListNotations.

#[local] Open Scope Z_scope.

(* ===================================================================== *)
(** ** JavaScript values, exceptions, loops                               *)
(* ===================================================================== *)

Module Js.

(** The values the landmark pipeline handles: numbers, arrays, and the
    [undefined] an out-of-range read produces. *)
#[warnings="-register-all"]
Inductive jsval : Type :=
| Undefined
| Num (x : float)
| Arr (elems : list jsval).

(** The result of running code that may throw: a value, or an [Error]
    carrying its [message]. *)
Inductive outcome (A : Type) : Type :=
| Ok (a : A)
| Throw (message : string).

Arguments Ok {A} a.
Arguments Throw {A} message.

Definition bind {A B : Type} (m : outcome A) (k : A -> outcome B) : outcome B :=
  match m with
  | Ok a => k a
  | Throw e => Throw e
  end.

(** [sequence.length] *)
Definition len {A : Type} (a : list A) : Z := Z.of_nat (List.length a).

(** [sequence[idx]]: [undefined] outside [0 .. length-1]. *)
Definition get (a : list jsval) (idx : Z) : jsval :=
  if idx <? 0 then Undefined else nth (Z.to_nat idx) a Undefined.

(** [out.push(v)] *)
Definition push {A : Type} (a : list A) (v : A) : list A := a ++ [v].

(** [n] iterations of a counting loop whose counter currently is [i]. *)
Fixpoint iterate {S : Type} (n : nat) (i : Z) (body : Z -> S -> S) (s : S) : S :=
  match n with
  | O => s
  | Datatypes.S n' => iterate n' (i + 1) body (body i s)
  end.

(** The values the counter takes in [n] iterations that start at [i]. *)
Definition counters (i : Z) (n : nat) : list Z :=
  map (fun k => i + Z.of_nat k) (seq 0 n).

(** [for (let i = lo; i < hi; i++) body] *)
Definition for_loop {S : Type} (lo hi : Z) (body : Z -> S -> S) (s : S) : S :=
  iterate (Z.to_nat (hi - lo)) lo body s.

(** The same loop with a body that may throw: the first exception leaves
    the loop. *)
Fixpoint iterateE {S : Type} (n : nat) (i : Z) (body : Z -> S -> outcome S) (s : S)
  : outcome S :=
  match n with
  | O => Ok s
  | Datatypes.S n' =>
      match body i s with
      | Ok s' => iterateE n' (i + 1) body s'
      | Throw e => Throw e
      end
  end.

Definition for_loopE {S : Type} (lo hi : Z) (body : Z -> S -> outcome S) (s : S)
  : outcome S :=
  iterateE (Z.to_nat (hi - lo)) lo body s.

(** [array.map(f)] with an [f] that may throw. *)
Fixpoint mapE {A B : Type} (f : A -> outcome B) (l : list A) : outcome (list B) :=
  match l with
  | [] => Ok []
  | a :: l' =>
      match f a with
      | Ok b =>
          match mapE f l' with
          | Ok bs => Ok (b :: bs)
          | Throw e => Throw e
          end
      | Throw e => Throw e
      end
  end.

(** The message of the [TypeError] raised by a property read or a method
    call on a value that has none (its wording is the engine's). *)
Definition TypeError : string := "TypeError".

(** [frame.flat()]: one level of nested arrays is spliced into the result;
    on a value that is not an array the call throws. *)
Definition flat (frame : jsval) : outcome (list jsval) :=
  match frame with
  | Arr elems =>
      Ok (concat (map (fun e => match e with
                                | Arr sub => sub
                                | other => [other]
                                end) elems))
  | _ => Throw TypeError
  end.

Definition is_num (v : jsval) : bool :=
  match v with
  | Num _ => true
  | _ => false
  end.

(** [a || b] on strings: the empty string is falsy. *)
Definition or_else (a b : string) : string :=
  match a with
  | EmptyString => b
  | _ => a
  end.

End Js.

Import Js.

(* ===================================================================== *)
(** ** The frame encoder                                                  *)
(* ===================================================================== *)

Module Encoder.

(** One keypoint as the detector reports it. *)
Record Landmark : Type := { x : float; y : float; z : float }.

(** One entry of [multiHandedness]. *)
Record Handedness : Type := { label : string }.

(** The detector's result; either array may be missing. *)
Record HandsResults : Type := {
  multiHandLandmarks : option (list (list Landmark));
  multiHandedness : option (list Handedness)
}.

(** [new Array(21).fill(null).map(() => [0, 0, 0])] *)
Definition emptyHand : list jsval :=
  map (fun _ => Arr [Num 0%float; Num 0%float; Num 0%float]) (repeat tt 21).

(** [handLandmarks.map((lm) => [lm.x, lm.y, lm.z])] *)
Definition landmarkArray (handLandmarks : list Landmark) : list jsval :=
  map (fun lm => Arr [Num (x lm); Num (y lm); Num (z lm)]) handLandmarks.

(** The loop body of [extractTwoHandLandmarks] on the pair
    [(leftHand, rightHand)].  [multiHandLandmarks[i]] is in range by the loop
    bound; [multiHandedness[i].label] throws when [multiHandedness] is the
    shorter array. *)
Definition assignHand (lms : list (list Landmark)) (hs : list Handedness)
    (i : Z) (hands : list jsval * list jsval) : outcome (list jsval * list jsval) :=
  let handLandmarks := nth (Z.to_nat i) lms [] in
  match nth_error hs (Z.to_nat i) with
  | None => Throw TypeError
  | Some h =>
      let handLabel := label h in
      let landmarkArray := landmarkArray handLandmarks in
      if String.eqb handLabel "Left" then Ok (landmarkArray, snd hands)
      else if String.eqb handLabel "Right" then Ok (fst hands, landmarkArray)
      else Ok hands
  end.

(** [extractTwoHandLandmarks] (App.jsx 1007-1031, part_000 658-682). *)
Definition extractTwoHandLandmarks (handsResults : HandsResults) : outcome jsval :=
  let leftHand := emptyHand in
  let rightHand := emptyHand in
  bind
    match multiHandLandmarks handsResults, multiHandedness handsResults with
    | Some lms, Some hs => for_loopE 0 (len lms) (assignHand lms hs) (leftHand, rightHand)
    | _, _ => Ok (leftHand, rightHand)
    end
    (fun hands => Ok (Arr (fst hands ++ snd hands))).

End Encoder.

(* ===================================================================== *)
(** ** The hand slots as the specification words them                     *)
(* ===================================================================== *)

(** What the encoder is compared with: a frame is the LEFT slot followed by
    the RIGHT slot, and a slot holds the points of the last detected hand
    that carries its label, or 21 zero points when there is none. *)
Module Slots.

Import Encoder.

(** The detected hands in iteration order, each with its label. *)
Definition detectedHands (lms : list (list Landmark)) (hs : list Handedness)
  : list (string * list Landmark) :=
  combine (map label hs) lms.

Definition lastLabelled (lbl : string) (hands : list (string * list Landmark))
  : option (list Landmark) :=
  option_map snd (find (fun h => String.eqb (fst h) lbl) (rev hands)).

Definition zeroPoints : list jsval :=
  repeat (Arr [Num 0%float; Num 0%float; Num 0%float]) 21.

Definition slot (lbl : string) (hands : list (string * list Landmark)) : list jsval :=
  match lastLabelled lbl hands with
  | Some points => map (fun lm => Arr [Num (x lm); Num (y lm); Num (z lm)]) points
  | None => zeroPoints
  end.

(** What one labelled hand does to the pair of slots. *)
Definition assign (h : string * list Landmark) (hands : list jsval * list jsval)
  : list jsval * list jsval :=
  if String.eqb (fst h) "Left" then (landmarkArray (snd h), snd hands)
  else if String.eqb (fst h) "Right" then (fst hands, landmarkArray (snd h))
  else hands.

(** A value [[a, b, c]] of three numbers. *)
Definition triple (v : jsval) : Prop :=
  exists a b c : float, v = Arr [Num a; Num b; Num c].

(** A slot of 21 points of three numbers each. *)
Definition handShaped (points : list jsval) : Prop :=
  length points = 21%nat /\ Forall triple points.

(** The numbers of a frame, when flattening it succeeds and yields numbers
    only. *)
Definition components (frame : jsval) : option (list jsval) :=
  match flat frame with
  | Ok values => if forallb is_num values then Some values else None
  | Throw _ => None
  end.

End Slots.

(* ===================================================================== *)
(** ** The sequence normalizer                                            *)
(* ===================================================================== *)

Module Normalizer.

(** [uniformTruncate] (App.jsx 1129-1139 and 1206-1216, part_000 780-790). *)
Definition uniformTruncate (sequence : list jsval) (targetLen : Z) : list jsval :=
  let N := len sequence in
  if N <=? targetLen then sequence
  else if targetLen <=? 0 then []
  else
    for_loop 0 targetLen
      (fun i out =>
         let idx := (i * (N - 1)) / Z.max (targetLen - 1) 1 in
         push out (get sequence idx))
      [].

(** [Array.from({ length: 42 }, () => [-10, -10, -10])] *)
Definition padFrame : jsval :=
  Arr (map (fun _ => Arr [Num (-10)%float; Num (-10)%float; Num (-10)%float])
           (repeat tt 42)).

(** The truncate-or-pad step of [extractLandmarksFromVideo]
    (App.jsx 1141-1157, part_000 792-817) on [landmarksList], with
    [CONFIG.MAX_SEQ_LEN] as a parameter.  The array is rewritten in place:
    emptied and refilled when truncating, pushed onto when padding. *)
Definition normalize (landmarksList : list jsval) (MAX_SEQ_LEN : Z) : list jsval :=
  if len landmarksList >? MAX_SEQ_LEN then
    let truncated := uniformTruncate landmarksList MAX_SEQ_LEN in
    [] ++ truncated
  else if len landmarksList <? MAX_SEQ_LEN then
    let padLen := MAX_SEQ_LEN - len landmarksList in
    for_loop 0 padLen (fun _ landmarksList => push landmarksList padFrame) landmarksList
  else landmarksList.

(** The same step on the live path of [handleTranslate] (App.jsx 1203-1230).
    [landmarksList] starts as an alias of [realtimeLandmarksRef.current]:
    truncation rebinds the variable and leaves the accumulator as it was,
    padding pushes onto the accumulator itself.  The result is the pair of
    the variable's final value and the accumulator's. *)
Definition normalizeLive (realtimeLandmarks : list jsval) (MAX_SEQ_LEN : Z)
  : list jsval * list jsval :=
  let landmarksList := realtimeLandmarks in
  if len landmarksList >? MAX_SEQ_LEN then
    (uniformTruncate landmarksList MAX_SEQ_LEN, realtimeLandmarks)
  else if len landmarksList <? MAX_SEQ_LEN then
    let padLen := MAX_SEQ_LEN - len landmarksList in
    let padded :=
      for_loop 0 padLen (fun _ landmarksList => push landmarksList padFrame) landmarksList in
    (padded, padded)
  else (landmarksList, realtimeLandmarks).

End Normalizer.

(* ===================================================================== *)
(** ** The component state and its environment                            *)
(* ===================================================================== *)

Module App.

Import Encoder Normalizer.

(** [CONFIG] *)
Definition TARGET_FPS : Z := 25.
Definition MAX_SEQ_LEN : Z := 190.
Definition BACKEND_URL : string :=
  "https://suencheah-DGS-CSLT-backend.hf.space/api/translate_landmarks".

Inductive InputMode : Type := upload | record.

(** A parsed JSON text, as far as the handler looks into one. *)
#[warnings="-register-all"]
Inductive json : Type :=
| JNull
| JBool (b : bool)
| JNumber (x : float)
| JString (s : string)
| JArray (items : list json)
| JObject (fields : list (string * json)).

(** [data.confidence]: an object with an [overall] entry. *)
Record Confidence : Type := { overall : option float }.

(** The body of a successful response, [await response.json()]; an entry
    that is missing is [None], and so is a [confidence] that is [null]. *)
Module Data.
Record t : Type := {
  gloss : option string;
  translation : option string;
  confidence : option Confidence;
  timing_total : option float;       (* data.timing?.total *)
  landmarks_shape : option (list Z)
}.
End Data.

(** [response]: its [ok] flag, its body as text, and its body parsed by
    [response.json()], which throws on malformed JSON and yields [None]
    for the JSON text [null]. *)
Module Response.
Record t : Type := {
  ok : bool;
  text : string;
  json : outcome (option Data.t)
}.
End Response.

(** What [fetch] is called with: the URL and the fields of the JSON body. *)
Module Request.
Record t : Type := {
  url : string;
  landmarks : list (list jsval);
  method : string
}.
End Request.

(** [processingTime]: [data.timing?.total || "N/A"]. *)
Inductive ProcessingTime : Type := Seconds (x : float) | NA.

(** The object given to [setResults]. *)
Module Results.
Record t : Type := {
  gloss : option string;
  translation : option string;
  confidence : option float;
  method : option string;            (* translationMethods[selectedMethod] *)
  processingTime : ProcessingTime;
  landmarksShape : option (list Z)
}.
End Results.

(** One entry of the translation history; [confidence] is
    [data.confidence || 0]. *)
Module HistoryRecord.
Record t : Type := {
  id : Z;
  time : string;
  translation : option string;
  confidence : option Confidence;
  method : string
}.
End HistoryRecord.

(** What [localStorage.getItem("translationHistory")] and [JSON.parse] make
    of the stored item: nothing stored, a text that does not parse (or a
    storage that throws), a JSON value that is no array, or an array, whose
    entries are taken to be records as the component writes them. *)
Inductive Stored : Type :=
| NoItem
| Unparsable
| NotAnArray
| StoredArray (items : list HistoryRecord.t).

(** The video behind [videoRef] once its metadata is known: a clip whose
    metadata loads and whose duration is a finite number, so that
    [totalFrames] is an integer.  On a clip whose metadata never loads, or
    whose duration is [Infinity], the batch extractor does not return; the
    handlers are modelled on the runs that return. *)
Module Video.
Record t : Type := {
  durationFixed : string;            (* duration.toFixed(2) *)
  totalFrames : Z                    (* Math.max(0, Math.floor(duration * fps)) *)
}.
End Video.

(** Everything the component takes from outside: the translation table
    behind [t] (the module [./translations]), the clock, the built-ins
    [JSON.parse] and [String], the detector, the network, the camera and the
    storage.  The clock is read by position: the [k]-th read of a run
    returns the [k]-th value. *)
Record Env : Type := {
  t : string -> list string -> string;
  translationMethods : string -> option string;
  toLocaleTimeString : nat -> string;
  toLocaleString : nat -> string;
  Date_now : nat -> Z;
  JSON_parse : string -> outcome json;
  String_of : json -> string;                (* String(v) *)
  hands_initialize : outcome unit;           (* new window.Hands(..), hands.initialize() *)
  video : outcome Video.t;                   (* the refs, getContext, the metadata *)
  hands_send : Z -> outcome HandsResults;    (* what onResults receives for frame i *)
  roundedProgress : Z -> Z -> Z;             (* Math.floor(((p / n) * 50) / 5) * 5, in doubles *)
  fetch : Request.t -> outcome Response.t;
  getUserMedia : bool;                       (* whether the camera is granted *)
  localStorage_setItem : bool                (* whether a write to the storage succeeds *)
}.

(** The state of the component that the handlers read and write: the React
    state (from [file] to [isCameraActive]), the accumulator of live frames,
    and, of the browser, the stored history, the requests sent so far and
    the position of the clock. *)
Record World : Type := {
  file : option string;  (* the selected or recorded clip (its name) *)
  inputMode : InputMode;
  selectedMethod : string;
  isProcessing : bool;
  progress : Z;
  currentStage : string;
  results : option Results.t;
  error : option string;
  extractionLog : list string;
  translationHistory : list HistoryRecord.t;
  isCameraActive : bool;
  realtimeLandmarks : list jsval;  (* realtimeLandmarksRef.current *)
  storedHistory : Stored;  (* localStorage item translationHistory *)
  requests : list Request.t;  (* the requests handed to fetch, oldest first *)
  clockReads : nat  (* how often the clock has been read *)
}.

Definition set_isProcessing (v : bool) (w : World) : World :=
  {| file := file w; inputMode := inputMode w; selectedMethod := selectedMethod w;
     isProcessing := v; progress := progress w; currentStage := currentStage w;
     results := results w; error := error w; extractionLog := extractionLog w;
     translationHistory := translationHistory w; isCameraActive := isCameraActive w;
     realtimeLandmarks := realtimeLandmarks w; storedHistory := storedHistory w;
     requests := requests w; clockReads := clockReads w |}.

Definition set_progress (v : Z) (w : World) : World :=
  {| file := file w; inputMode := inputMode w; selectedMethod := selectedMethod w;
     isProcessing := isProcessing w; progress := v; currentStage := currentStage w;
     results := results w; error := error w; extractionLog := extractionLog w;
     translationHistory := translationHistory w; isCameraActive := isCameraActive w;
     realtimeLandmarks := realtimeLandmarks w; storedHistory := storedHistory w;
     requests := requests w; clockReads := clockReads w |}.

Definition set_currentStage (v : string) (w : World) : World :=
  {| file := file w; inputMode := inputMode w; selectedMethod := selectedMethod w;
     isProcessing := isProcessing w; progress := progress w; currentStage := v;
     results := results w; error := error w; extractionLog := extractionLog w;
     translationHistory := translationHistory w; isCameraActive := isCameraActive w;
     realtimeLandmarks := realtimeLandmarks w; storedHistory := storedHistory w;
     requests := requests w; clockReads := clockReads w |}.

Definition set_results (v : option Results.t) (w : World) : World :=
  {| file := file w; inputMode := inputMode w; selectedMethod := selectedMethod w;
     isProcessing := isProcessing w; progress := progress w;
     currentStage := currentStage w; results := v; error := error w;
     extractionLog := extractionLog w; translationHistory := translationHistory w;
     isCameraActive := isCameraActive w; realtimeLandmarks := realtimeLandmarks w;
     storedHistory := storedHistory w; requests := requests w;
     clockReads := clockReads w |}.

Definition set_error (v : option string) (w : World) : World :=
  {| file := file w; inputMode := inputMode w; selectedMethod := selectedMethod w;
     isProcessing := isProcessing w; progress := progress w;
     currentStage := currentStage w; results := results w; error := v;
     extractionLog := extractionLog w; translationHistory := translationHistory w;
     isCameraActive := isCameraActive w; realtimeLandmarks := realtimeLandmarks w;
     storedHistory := storedHistory w; requests := requests w;
     clockReads := clockReads w |}.

Definition set_extractionLog (v : list string) (w : World) : World :=
  {| file := file w; inputMode := inputMode w; selectedMethod := selectedMethod w;
     isProcessing := isProcessing w; progress := progress w;
     currentStage := currentStage w; results := results w; error := error w;
     extractionLog := v; translationHistory := translationHistory w;
     isCameraActive := isCameraActive w; realtimeLandmarks := realtimeLandmarks w;
     storedHistory := storedHistory w; requests := requests w;
     clockReads := clockReads w |}.

Definition set_translationHistory (v : list HistoryRecord.t) (w : World) : World :=
  {| file := file w; inputMode := inputMode w; selectedMethod := selectedMethod w;
     isProcessing := isProcessing w; progress := progress w;
     currentStage := currentStage w; results := results w; error := error w;
     extractionLog := extractionLog w; translationHistory := v;
     isCameraActive := isCameraActive w; realtimeLandmarks := realtimeLandmarks w;
     storedHistory := storedHistory w; requests := requests w;
     clockReads := clockReads w |}.

Definition set_isCameraActive (v : bool) (w : World) : World :=
  {| file := file w; inputMode := inputMode w; selectedMethod := selectedMethod w;
     isProcessing := isProcessing w; progress := progress w;
     currentStage := currentStage w; results := results w; error := error w;
     extractionLog := extractionLog w; translationHistory := translationHistory w;
     isCameraActive := v; realtimeLandmarks := realtimeLandmarks w;
     storedHistory := storedHistory w; requests := requests w;
     clockReads := clockReads w |}.

Definition set_realtimeLandmarks (v : list jsval) (w : World) : World :=
  {| file := file w; inputMode := inputMode w; selectedMethod := selectedMethod w;
     isProcessing := isProcessing w; progress := progress w;
     currentStage := currentStage w; results := results w; error := error w;
     extractionLog := extractionLog w; translationHistory := translationHistory w;
     isCameraActive := isCameraActive w; realtimeLandmarks := v;
     storedHistory := storedHistory w; requests := requests w;
     clockReads := clockReads w |}.

Definition set_storedHistory (v : Stored) (w : World) : World :=
  {| file := file w; inputMode := inputMode w; selectedMethod := selectedMethod w;
     isProcessing := isProcessing w; progress := progress w;
     currentStage := currentStage w; results := results w; error := error w;
     extractionLog := extractionLog w; translationHistory := translationHistory w;
     isCameraActive := isCameraActive w; realtimeLandmarks := realtimeLandmarks w;
     storedHistory := v; requests := requests w; clockReads := clockReads w |}.

Definition set_requests (v : list Request.t) (w : World) : World :=
  {| file := file w; inputMode := inputMode w; selectedMethod := selectedMethod w;
     isProcessing := isProcessing w; progress := progress w;
     currentStage := currentStage w; results := results w; error := error w;
     extractionLog := extractionLog w; translationHistory := translationHistory w;
     isCameraActive := isCameraActive w; realtimeLandmarks := realtimeLandmarks w;
     storedHistory := storedHistory w; requests := v; clockReads := clockReads w |}.

Definition set_clockReads (v : nat) (w : World) : World :=
  {| file := file w; inputMode := inputMode w; selectedMethod := selectedMethod w;
     isProcessing := isProcessing w; progress := progress w;
     currentStage := currentStage w; results := results w; error := error w;
     extractionLog := extractionLog w; translationHistory := translationHistory w;
     isCameraActive := isCameraActive w; realtimeLandmarks := realtimeLandmarks w;
     storedHistory := storedHistory w; requests := requests w; clockReads := v |}.


(** *** Stateful code that may throw

    A computation takes the world and returns a value or an exception
    together with the world it leaves; what was written before a throw
    stays written. *)

Definition M (A : Type) : Type := World -> outcome A * World.

Definition ret {A : Type} (a : A) : M A := fun w => (Ok a, w).

Definition throw {A : Type} (message : string) : M A := fun w => (Throw message, w).

Definition bindM {A B : Type} (m : M A) (k : A -> M B) : M B :=
  fun w =>
    match m w with
    | (Ok a, w') => k a w'
    | (Throw e, w') => (Throw e, w')
    end.

Notation "x <- m ;; k" := (bindM m (fun x => k))
  (at level 61, m at next level, right associativity).
Notation "m ;; k" := (bindM m (fun _ => k))
  (at level 61, right associativity).

(** An outcome decided outside the component. *)
Definition lift {A : Type} (o : outcome A) : M A := fun w => (o, w).

Definition gets {A : Type} (f : World -> A) : M A := fun w => (Ok (f w), w).

Definition modify (f : World -> World) : M unit := fun w => (Ok tt, f w).

(** [try { body } catch (err) { handler(err.message) }] *)
Definition tryCatch {A : Type} (body : M A) (handler : string -> M A) : M A :=
  fun w =>
    match body w with
    | (Ok a, w') => (Ok a, w')
    | (Throw e, w') => handler e w'
    end.

(** [try { body } catch (err) { handler } finally { fin }]: [fin] runs on
    every way out, and an exception of the handler outlives it unless [fin]
    throws itself. *)
Definition tryCatchFinally (body : M unit) (handler : string -> M unit) (fin : M unit)
  : M unit :=
  fun w =>
    match tryCatch body handler w with
    | (Ok _, w') => fin w'
    | (Throw e, w') =>
        match fin w' with
        | (Ok _, w'') => (Throw e, w'')
        | (Throw e', w'') => (Throw e', w'')
        end
    end.

Fixpoint iterateM {S : Type} (n : nat) (i : Z) (body : Z -> S -> M S) (s : S) : M S :=
  match n with
  | O => ret s
  | Datatypes.S n' => s' <- body i s ;; iterateM n' (i + 1) body s'
  end.

(** [for (let i = lo; i < hi; i++) { await body }] *)
Definition for_loopM {S : Type} (lo hi : Z) (body : Z -> S -> M S) (s : S) : M S :=
  iterateM (Z.to_nat (hi - lo)) lo body s.

(** [String(n)] for an integer [n]. *)
Definition showZ (n : Z) : string := NilZero.string_of_int (Z.to_int n).

(** The state setters of React. *)
Definition setIsProcessing (v : bool) : M unit := modify (set_isProcessing v).
Definition setProgress (v : Z) : M unit := modify (set_progress v).
Definition setCurrentStage (v : string) : M unit := modify (set_currentStage v).
Definition setResults (v : option Results.t) : M unit := modify (set_results v).
Definition setError (v : option string) : M unit := modify (set_error v).
Definition setExtractionLog (v : list string) : M unit := modify (set_extractionLog v).
Definition setTranslationHistory (v : list HistoryRecord.t) : M unit :=
  modify (set_translationHistory v).
Definition setIsCameraActive (v : bool) : M unit := modify (set_isCameraActive v).

(** A read of the clock: [read] picks what is asked of it (a time of day,
    a date, milliseconds); the clock moves on. *)
Definition readClock {A : Type} (read : nat -> A) : M A :=
  fun w => (Ok (read (clockReads w)), set_clockReads (S (clockReads w)) w).

(** [setExtractionLog((prev) => [...prev, entry])] *)
Definition appendLog (entry : string) : M unit :=
  modify (fun w => set_extractionLog (extractionLog w ++ [entry]) w).

(** The history operations on the list itself: [[record, ...prev].slice(0, 10)],
    [parsed.slice(0, 10)] and [filter(rec => rec.id !== recordId)]. *)
Definition keepLatest (record : HistoryRecord.t) (prev : list HistoryRecord.t)
  : list HistoryRecord.t :=
  firstn 10 (record :: prev).

Definition keepStored (parsed : list HistoryRecord.t) : list HistoryRecord.t :=
  firstn 10 parsed.

Definition withoutRecord (recordId : Z) (history : list HistoryRecord.t)
  : list HistoryRecord.t :=
  filter (fun rec => negb (HistoryRecord.id rec =? recordId)) history.

(** [errorData.error]: reading a property of [null] throws; an object gives
    the entry or [undefined]; any other value gives [undefined]. *)
Definition errorField (errorData : json) : outcome (option json) :=
  match errorData with
  | JNull => Throw TypeError
  | JObject fields =>
      Ok (option_map snd (find (fun kv => String.eqb (fst kv) "error") fields))
  | _ => Ok None
  end.

Definition truthy (v : json) : bool :=
  match v with
  | JNull => false
  | JBool b => b
  | JNumber x => negb (is_zero x || is_nan x)
  | JString s => negb (String.eqb s EmptyString)
  | JArray _ | JObject _ => true
  end.

(* ===================================================================== *)
(** ** The handlers of [src/src/App.jsx]                                  *)
(* ===================================================================== *)

Section Component.

Variable env : Env.

(** [new Date().toLocaleTimeString()] *)
Definition now : M string := readClock (toLocaleTimeString env).

(** [`${new Date().toLocaleTimeString()}: ${message}`]; where the source
    builds the entry inside a state updater, the clock is read where the
    updater is queued. *)
Definition stamped (message : string) : M string :=
  time <- now ;; ret (time ++ ": " ++ message)%string.

(** [addLog] (App.jsx 134-139), also the shape of every
    [setExtractionLog(prev => [...prev, `${time}: ${message}`])]. *)
Definition addLog (message : string) : M unit :=
  entry <- stamped message ;; appendLog entry.

(** [startCamera] (App.jsx 171-267), as far as it writes component state:
    the stream is attached and the flag set, or the refusal is reported. *)
Definition cameraRefused : string :=
  "Failed to access camera. Please ensure permissions are granted.".

Definition startCamera : M unit :=
  if getUserMedia env then setIsCameraActive true
  else setError (Some cameraRefused).

(** [stopCamera] (App.jsx 353-358) *)
Definition stopCamera : M unit := setIsCameraActive false.

(** The variables [onResults] updates in [extractLandmarksFromVideo]. *)
Record Extraction : Type := {
  landmarksList : list jsval;
  processedFrames : Z;
  lastProgressUpdate : Z
}.

(** The [hands.onResults] callback (App.jsx 1066-1086); [addLocalLog] appends
    to the component's log through [onLogUpdate]. *)
Definition onResults (totalFrames : Z) (results : HandsResults) (st : Extraction)
  : M Extraction :=
  frameLandmarks <- lift (extractTwoHandLandmarks results) ;;
  let landmarksList := push (landmarksList st) frameLandmarks in
  let processedFrames := processedFrames st + 1 in
  lastProgressUpdate <-
    (if totalFrames >? 0 then
       let roundedProgress := roundedProgress env processedFrames totalFrames in
       if roundedProgress >? lastProgressUpdate st then
         setProgress (Z.min roundedProgress 50) ;; ret roundedProgress
       else ret (lastProgressUpdate st)
     else ret (lastProgressUpdate st)) ;;
  (if processedFrames mod 25 =? 0 then
     addLog (t env "log_processed_frames" [showZ processedFrames; showZ totalFrames])
   else ret tt) ;;
  ret {| landmarksList := landmarksList;
         processedFrames := processedFrames;
         lastProgressUpdate := lastProgressUpdate |}.

(** The message [extractLandmarksFromVideo] rejects with:
    [err && err.message ? err.message : String(err)], where [String] of an
    error without a message is its name. *)
Definition rejection (message : string) : string := or_else message "Error".

(** [extractLandmarksFromVideo] (App.jsx 1033-1170).  The value is
    [flatLandmarks]; [logs] holds the entries that were also appended to the
    component's log and is not read by the caller.  An exception inside the
    [onResults] callback is taken to reject the [hands.send] that caused
    it. *)
Definition extractLandmarksFromVideo : M (list (list jsval)) :=
  tryCatch
    (addLog (t env "log_initializing_mediapipe" []) ;;
     lift (hands_initialize env) ;;
     addLog (t env "log_mediapipe_initialized" []) ;;
     v <- lift (video env) ;;
     let fps := TARGET_FPS in
     let totalFrames := Video.totalFrames v in
     addLog (t env "log_video_duration" [Video.durationFixed v]) ;;
     addLog (t env "log_extract_frames" [showZ totalFrames; showZ fps]) ;;
     st <- for_loopM 0 totalFrames
             (fun i st => results <- lift (hands_send env i) ;; onResults totalFrames results st)
             {| landmarksList := []; processedFrames := 0; lastProgressUpdate := 0 |} ;;
     let landmarksList := landmarksList st in
     addLog (t env "log_extracted_frames" [showZ (len landmarksList)]) ;;
     (if len landmarksList >? MAX_SEQ_LEN then
        addLog (t env "log_truncating" [showZ (len landmarksList); showZ MAX_SEQ_LEN])
      else if len landmarksList <? MAX_SEQ_LEN then
        let padLen := MAX_SEQ_LEN - len landmarksList in
        addLog (t env "log_padding"
                  [showZ (len landmarksList); showZ MAX_SEQ_LEN; showZ padLen])
      else ret tt) ;;
     let landmarksList := normalize landmarksList MAX_SEQ_LEN in
     addLog (t env "log_final_sequence" [showZ (len landmarksList)]) ;;
     flatLandmarks <- lift (mapE flat landmarksList) ;;
     addLog (t env "log_landmark_extraction_complete" []) ;;
     ret flatLandmarks)
    (fun message => throw (rejection message)).

(** The live branch of [handleTranslate] (App.jsx 1198-1233): the frames
    collected while recording are normalized in place of a second pass over
    the clip. *)
Definition useRealtimeLandmarks (realtimeLandmarks : list jsval) : M (list (list jsval)) :=
  let originalFrameCount := len realtimeLandmarks in
  addLog ("Using real-time extracted landmarks (" ++ showZ originalFrameCount
          ++ " frames)")%string ;;
  (if originalFrameCount >? MAX_SEQ_LEN then
     addLog ("Truncating from " ++ showZ originalFrameCount ++ " frames to "
             ++ showZ MAX_SEQ_LEN ++ " frames")%string
   else if originalFrameCount <? MAX_SEQ_LEN then
     let padLen := MAX_SEQ_LEN - originalFrameCount in
     addLog ("Padding from " ++ showZ originalFrameCount ++ " frames to "
             ++ showZ MAX_SEQ_LEN ++ " frames (added " ++ showZ padLen
             ++ " padding frames)")%string
   else
     addLog ("Using exactly " ++ showZ originalFrameCount
             ++ " frames (no padding or truncation needed)")%string) ;;
  let '(landmarksList, current) := normalizeLive realtimeLandmarks MAX_SEQ_LEN in
  modify (set_realtimeLandmarks current) ;;
  extractedLandmarks <- lift (mapE flat landmarksList) ;;
  setProgress 50 ;;
  ret extractedLandmarks.

(** [fetch(url, { method: "POST", body: JSON.stringify(body) })] *)
Definition doFetch (request : Request.t) : M Response.t :=
  modify (fun w => set_requests (requests w ++ [request]) w) ;;
  lift (fetch env request).

(** [new Error(errorData.error || "Translation failed").message] *)
Definition errorMessage (error : option json) : string :=
  match error with
  | Some v =>
      if truthy v then
        match v with
        | JString s => s
        | _ => String_of env v
        end
      else "Translation failed"
  | None => "Translation failed"
  end.

(** The [if (!response.ok)] block (App.jsx 1264-1272, part_000 888-896):
    the [throw] of the [try] block is inside the [try], so the bare [catch]
    receives it like a failure of [JSON.parse]. *)
Definition rejectResponse (response : Response.t) : M unit :=
  let errorText := Response.text response in
  tryCatch
    (errorData <- lift (JSON_parse env errorText) ;;
     error <- lift (errorField errorData) ;;
     throw (errorMessage error))
    (fun _ => throw ("Server error: " ++ substring 0 100 errorText ++ "...")%string).

(** The argument of [setResults] (App.jsx 1277-1284): reading [data.gloss]
    of a [null] body or [data.confidence.overall] without a [confidence]
    throws before [setResults] is called. *)
Definition resultsOf (selectedMethod : string) (data : option Data.t) : outcome Results.t :=
  match data with
  | None => Throw TypeError
  | Some data =>
      match Data.confidence data with
      | None => Throw TypeError
      | Some confidence =>
          Ok {| Results.gloss := Data.gloss data;
                Results.translation := Data.translation data;
                Results.confidence := overall confidence;
                Results.method := translationMethods env selectedMethod;
                Results.processingTime :=
                  match Data.timing_total data with
                  | Some x => if is_zero x || is_nan x then NA else Seconds x
                  | None => NA
                  end;
                Results.landmarksShape := Data.landmarks_shape data |}
      end
  end.

(** The updater given to [setTranslationHistory] (App.jsx 1309-1317): a
    failed write to the storage is logged and ignored. *)
Definition prependToHistory (record : HistoryRecord.t) : M unit :=
  modify (fun w =>
            let next := keepLatest record (translationHistory w) in
            let w := if localStorage_setItem env
                     then set_storedHistory (StoredArray next) w else w in
            set_translationHistory next w).

(** The history block (App.jsx 1300-1320) with the method it records. *)
Definition recordTranslation (data : Data.t) (method : string) : M unit :=
  id <- readClock (Date_now env) ;;
  time <- readClock (toLocaleString env) ;;
  prependToHistory {| HistoryRecord.id := id;
                      HistoryRecord.time := time;
                      HistoryRecord.translation := Data.translation data;
                      HistoryRecord.confidence := Data.confidence data;
                      HistoryRecord.method := method |}.

(** The first part of the [try] block of [handleTranslate]
    (App.jsx 1190-1274), stages "extracting" and "translating": the
    landmarks, the request, and the body of a successful response.  [c] is
    the state the handler closed over. *)
Definition requesting (c : World) : M (option Data.t) :=
  setCurrentStage (t env "extractingLandmarks" []) ;;
  entry <- stamped (t env "log_starting_landmark_extraction" []) ;;
  setExtractionLog [entry] ;;
  realtimeLandmarks <- gets realtimeLandmarks ;;
  extractedLandmarks <-
    (match inputMode c with
     | record =>
         if len realtimeLandmarks >? 0 then useRealtimeLandmarks realtimeLandmarks
         else (flatLandmarks <- extractLandmarksFromVideo ;;
               setProgress 50 ;; ret flatLandmarks)
     | upload =>
         flatLandmarks <- extractLandmarksFromVideo ;;
         setProgress 50 ;; ret flatLandmarks
     end) ;;
  setCurrentStage (t env "translatingSignLanguage" []) ;;
  addLog (t env "log_sending_landmarks" []) ;;
  response <- doFetch {| Request.url := BACKEND_URL;
                         Request.landmarks := extractedLandmarks;
                         Request.method := "reranked_s2g_beam_g2t" |} ;;
  (if negb (Response.ok response) then rejectResponse response else ret tt) ;;
  lift (Response.json response).

(** The rest of the [try] block (App.jsx 1275-1322), on the body [data] of
    the response.  [setTranslationFeatureState] and [speakTranslation],
    after [setResults], act on state outside [World] and cannot leave the
    block: [speakTranslation] is called inside its own [try]/[catch]. *)
Definition completing (c : World) (data : option Data.t) : M unit :=
  setProgress 100 ;;
  results <- lift (resultsOf (selectedMethod c) data) ;;
  setResults (Some results) ;;
  match data with
  | Some data => recordTranslation data "reranked_s2g_beam_g2t"
  | None => ret tt
  end ;;
  addLog (t env "log_translation_complete" []).

(** The [try] block of [handleTranslate] (App.jsx 1190-1322). *)
Definition translating (c : World) : M unit :=
  data <- requesting c ;; completing c data.

(** The [catch] block (App.jsx 1323-1326). *)
Definition failed (message : string) : M unit :=
  setError (Some (or_else message (t env "translationFailedTryAgain" []))) ;;
  addLog (t env "log_error_prefix" [message]).

(** The [finally] block (App.jsx 1327-1337); [startCamera] reports its own
    failure and does not throw. *)
Definition settled (c : World) : M unit :=
  setIsProcessing false ;;
  setCurrentStage EmptyString ;;
  match inputMode c with
  | record => startCamera
  | upload => ret tt
  end.

(** The state [handleTranslate] enters its [try] block with
    (App.jsx 1183-1188). *)
Definition starting (c : World) : M unit :=
  setIsProcessing true ;;
  setProgress 0 ;;
  setError None ;;
  setResults None ;;
  setExtractionLog [] ;;
  (if isCameraActive c then stopCamera else ret tt).

(** The body of [handleTranslate] (App.jsx 1174-1337) over the state [c] it
    closed over. *)
Definition translate (c : World) : M unit :=
  match file c with
  | None =>
      setError (Some match inputMode c with
                     | upload => "Please select a video file first"%string
                     | record => "Please record a video first"%string
                     end)
  | Some _ =>
      starting c ;;
      tryCatchFinally (translating c) failed (settled c)
  end.

(** [handleTranslate] (App.jsx 1173-1338), called in the state it closed
    over. *)
Definition handleTranslate : M unit :=
  c <- gets (fun w => w) ;; translate c.

(** The effect that loads the history on mount (App.jsx 461-472). *)
Definition loadHistory : M unit :=
  stored <- gets storedHistory ;;
  match stored with
  | StoredArray parsed => setTranslationHistory (keepStored parsed)
  | _ => ret tt
  end.

(** [clearHistory] (App.jsx 488-495) *)
Definition clearHistory : M unit :=
  modify (fun w => if localStorage_setItem env then set_storedHistory NoItem w else w) ;;
  setTranslationHistory [].

(** [deleteHistoryItem] (App.jsx 497-505) *)
Definition deleteHistoryItem (recordId : Z) : M unit :=
  translationHistory <- gets translationHistory ;;
  let updatedHistory := withoutRecord recordId translationHistory in
  setTranslationHistory updatedHistory ;;
  modify (fun w => if localStorage_setItem env
                   then set_storedHistory (StoredArray updatedHistory) w else w).

End Component.

(** The state of a freshly mounted component (App.jsx 50-60, 86-87, 103):
    every [useState] and [useRef] at its initial value, the storage as the
    browser holds it. *)
Definition mounted (stored : Stored) : World :=
  {| file := None; inputMode := record; selectedMethod := "reranked_s2g_beam_g2t";
     isProcessing := false; progress := 0; currentStage := EmptyString;
     results := None; error := None; extractionLog := []; translationHistory := [];
     isCameraActive := false; realtimeLandmarks := []; storedHistory := stored;
     requests := []; clockReads := 0 |}.

End App.

(* ===================================================================== *)
(** ** The handlers of [src/unnamed/part_000]                             *)
(* ===================================================================== *)

(** The second source of the component has no live extraction: every clip,
    uploaded or recorded, goes through [extractLandmarksFromVideo].  Its
    frame encoder, [uniformTruncate], truncate-or-pad step, camera functions
    and [if (!response.ok)] block are those of App.jsx word for word; its
    state is that of App.jsx without the accumulator of live frames, which
    these handlers leave alone. *)
Module Part000.

Import Encoder Normalizer App.

Section Component.

Variable env : Env.

(** [extractLandmarksFromVideo] (part_000 684-840): the log entries are
    collected in [localLogs] and returned with the landmarks; the component
    state is not written. *)
Definition extractLandmarksFromVideo : M (list (list jsval) * list string) :=
  tryCatch
    (entry <- stamped env (t env "log_initializing_mediapipe" []) ;;
     let localLogs := [entry] in
     lift (hands_initialize env) ;;
     entry <- stamped env (t env "log_mediapipe_initialized" []) ;;
     let localLogs := push localLogs entry in
     v <- lift (video env) ;;
     let fps := TARGET_FPS in
     let totalFrames := Video.totalFrames v in
     entry <- stamped env (t env "log_video_duration" [Video.durationFixed v]) ;;
     let localLogs := push localLogs entry in
     entry <- stamped env (t env "log_extract_frames" [showZ totalFrames; showZ fps]) ;;
     let localLogs := push localLogs entry in
     landmarksList <-
       for_loopM 0 totalFrames
         (fun i landmarksList =>
            results <- lift (hands_send env i) ;;
            frameLandmarks <- lift (extractTwoHandLandmarks results) ;;
            ret (push landmarksList frameLandmarks))
         [] ;;
     entry <- stamped env (t env "log_extracted_frames" [showZ (len landmarksList)]) ;;
     let localLogs := push localLogs entry in
     localLogs <-
       (if len landmarksList >? MAX_SEQ_LEN then
          entry <- stamped env (t env "log_truncating"
                                  [showZ (len landmarksList); showZ MAX_SEQ_LEN]) ;;
          ret (push localLogs entry)
        else if len landmarksList <? MAX_SEQ_LEN then
          let padLen := MAX_SEQ_LEN - len landmarksList in
          entry <- stamped env (t env "log_padding"
                                  [showZ (len landmarksList); showZ MAX_SEQ_LEN;
                                   showZ padLen]) ;;
          ret (push localLogs entry)
        else ret localLogs) ;;
     let landmarksList := normalize landmarksList MAX_SEQ_LEN in
     entry <- stamped env (t env "log_final_sequence" [showZ (len landmarksList)]) ;;
     let localLogs := push localLogs entry in
     flatLandmarks <- lift (mapE flat landmarksList) ;;
     entry <- stamped env (t env "log_landmark_extraction_complete" []) ;;
     let localLogs := push localLogs entry in
     ret (flatLandmarks, localLogs))
    (fun message => throw (rejection message)).

(** The first part of the [try] block of [handleTranslate]
    (part_000 861-898). *)
Definition requesting (c : World) : M (option Data.t) :=
  setCurrentStage (t env "extractingLandmarks" []) ;;
  addLog env (t env "log_starting_landmark_extraction" []) ;;
  extractionResult <- extractLandmarksFromVideo ;;
  let extractedLandmarks := fst extractionResult in
  setExtractionLog (snd extractionResult) ;;
  setProgress 50 ;;
  setCurrentStage (t env "translatingSignLanguage" []) ;;
  addLog env (t env "log_sending_landmarks" []) ;;
  response <- doFetch env {| Request.url := BACKEND_URL;
                             Request.landmarks := extractedLandmarks;
                             Request.method := selectedMethod c |} ;;
  (if negb (Response.ok response) then rejectResponse env response else ret tt) ;;
  lift (Response.json response).

(** The rest of the [try] block (part_000 899-940). *)
Definition completing (c : World) (data : option Data.t) : M unit :=
  setProgress 100 ;;
  results <- lift (resultsOf env (selectedMethod c) data) ;;
  setResults (Some results) ;;
  match data with
  | Some data => recordTranslation env data (selectedMethod c)
  | None => ret tt
  end ;;
  addLog env (t env "log_translation_complete" []).

(** The [try] block of [handleTranslate] (part_000 861-940). *)
Definition translating (c : World) : M unit :=
  data <- requesting c ;; completing c data.

(** The body of [handleTranslate] (part_000 844-956) over the state [c] it
    closed over; its guard, its resets, its [catch] and its [finally] are
    those of App.jsx. *)
Definition translate (c : World) : M unit :=
  match file c with
  | None =>
      setError (Some match inputMode c with
                     | upload => "Please select a video file first"%string
                     | record => "Please record a video first"%string
                     end)
  | Some _ =>
      starting c ;;
      tryCatchFinally (translating c) (failed env) (settled env c)
  end.

(** [handleTranslate] (part_000 843-957) *)
Definition handleTranslate : M unit :=
  c <- gets (fun w => w) ;; translate c.

End Component.

End Part000.

(* ===================================================================== *)
(** ** What a handler leaves of the world                                 *)
(* ===================================================================== *)

Module Frames.

Import App.

(** [m] relates the world it starts in to the world it leaves, whether it
    returns or throws. *)
Definition respects (R : World -> World -> Prop) {A : Type} (m : M A) : Prop :=
  forall w : World, R w (snd (m w)).

(** If [m] throws, the world it leaves is related to the one it started
    in. *)
Definition failsWithin (R : World -> World -> Prop) {A : Type} (m : M A) : Prop :=
  forall (w w' : World) (message : string), m w = (Throw message, w') -> R w w'.

(** No outcome of a translation was written: the results, the error, the
    history and the stored history are as before. *)
Definition unrecorded (w w' : World) : Prop :=
  results w' = results w /\
  error w' = error w /\
  translationHistory w' = translationHistory w /\
  storedHistory w' = storedHistory w.

(** The history holds at most 10 entries. *)
Definition capped (w : World) : Prop := (length (translationHistory w) <= 10)%nat.

Definition keepsCap (w w' : World) : Prop := capped w -> capped w'.

(** [w'] has the requests of [w] and after them new ones, all with [P]. *)
Definition sends (P : Request.t -> Prop) (w w' : World) : Prop :=
  exists new : list Request.t, requests w' = requests w ++ new /\ Forall P new.

(** The handlers that write the history. *)
Inductive HistoryOp : Type :=
| Load
| Translate
| Clear
| Delete (recordId : Z).

Definition run (env : Env) (op : HistoryOp) : M unit :=
  match op with
  | Load => loadHistory
  | Translate => handleTranslate env
  | Clear => clearHistory env
  | Delete recordId => deleteHistoryItem env recordId
  end.

(** The worlds the component can be in: it mounts with an empty history
    ([useState([])]); a handler that writes the history runs, in any
    environment; or any other handler runs, which leaves the history as it
    is ([setTranslationHistory] has no other caller). *)
Inductive reachable : World -> Prop :=
| reach_mount (w : World) :
    translationHistory w = [] -> reachable w
| reach_history (env : Env) (op : HistoryOp) (w : World) :
    reachable w -> reachable (snd (run env op w))
| reach_other (handler : World -> World) (w : World) :
    reachable w ->
    translationHistory (handler w) = translationHistory w ->
    reachable (handler w).

End Frames.

(* ===================================================================== *)
(** ** Sample browsers and component states                               *)
(* ===================================================================== *)

Module Samples.

Import Encoder App.

(** The double quote character. *)
Definition quote : string := String (ascii_of_nat 34) EmptyString.

(** The body of a refused request, a JSON object whose [error] entry is the
    text [Model not loaded], and what [JSON.parse] makes of it. *)
Definition errorBody : string :=
  ("{" ++ quote ++ "error" ++ quote ++ ":" ++ quote ++ "Model not loaded" ++ quote ++ "}")%string.

Definition errorObject : json := JObject [("error"%string, JString "Model not loaded")].

(** The seconds of a sample clock that advances by one second per read. *)
Definition seconds (k : nat) : string :=
  if (k <? 10)%nat then ("0" ++ showZ (Z.of_nat k))%string else showZ (Z.of_nat k).

(** A browser whose detector starts or not, whose network answers every
    request with [answer], and whose camera is granted or not.  Its clips
    have two frames without hands; its translation table returns the key
    followed by the arguments. *)
Definition browser (detector : outcome unit) (answer : outcome Response.t)
    (camera : bool) : Env :=
  {| t := fun key args => String.concat " " (key :: args);
     translationMethods := fun _ => None;
     toLocaleTimeString := fun k => ("10:00:" ++ seconds k)%string;
     toLocaleString := fun k => ("1.1.2025, 10:00:" ++ seconds k)%string;
     Date_now := fun k => 1735725600000 + Z.of_nat k;
     JSON_parse := fun text =>
       if String.eqb text errorBody then Ok errorObject else Throw "Unexpected token";
     String_of := fun _ => "[object Object]"%string;
     hands_initialize := detector;
     video := Ok {| Video.durationFixed := "0.08"; Video.totalFrames := 2 |};
     hands_send := fun _ => Ok {| multiHandLandmarks := None; multiHandedness := None |};
     roundedProgress := fun p n => 10 * p / n * 5;
     fetch := fun _ => answer;
     getUserMedia := camera;
     localStorage_setItem := true |}.

(** Frame number [k] of a test sequence: a value that carries its number. *)
Fixpoint numberOf (k : nat) : float :=
  match k with
  | O => 0%float
  | S k' => (numberOf k' + 1)%float
  end.

Definition mark (k : nat) : jsval := Arr [Num (numberOf k)].

(** A refusal with a JSON body, and a translation. *)
Definition refused : Response.t :=
  {| Response.ok := false; Response.text := errorBody; Response.json := Ok None |}.

Definition translated : Response.t :=
  {| Response.ok := true;
     Response.text := EmptyString;
     Response.json :=
       Ok (Some {| Data.gloss := Some "HALLO WELT"%string;
                   Data.translation := Some "Hallo Welt"%string;
                   Data.confidence := Some {| overall := Some 0.5%float |};
                   Data.timing_total := Some 1.5%float;
                   Data.landmarks_shape := Some [190; 126] |}) |}.

(** History entry number [k]. *)
Definition entry (k : Z) : HistoryRecord.t :=
  {| HistoryRecord.id := k;
     HistoryRecord.time := showZ k;
     HistoryRecord.translation := Some "Hallo"%string;
     HistoryRecord.confidence := None;
     HistoryRecord.method := "reranked_s2g_beam_g2t" |}.

(** Upload mode with a clip selected, the method selector moved off its
    default (the selector of part_000; that of App.jsx is commented out),
    and a history of [entries]. *)
Definition uploaded (entries : list HistoryRecord.t) : World :=
  {| file := Some "clip.mp4"%string; inputMode := upload; selectedMethod := "s2g_g2t";
     isProcessing := false; progress := 0; currentStage := EmptyString;
     results := None; error := None; extractionLog := [];
     translationHistory := entries;
     isCameraActive := false; realtimeLandmarks := []; storedHistory := StoredArray entries;
     requests := []; clockReads := 0 |}.

(** Record mode after a recording during which three frames without hands
    were collected. *)
Definition recorded : World :=
  {| file := Some "recorded-video.webm"%string; inputMode := record;
     selectedMethod := "s2g_g2t";
     isProcessing := false; progress := 0; currentStage := EmptyString;
     results := None; error := None; extractionLog := [];
     translationHistory := [];
     isCameraActive := true;
     realtimeLandmarks := repeat (Arr (emptyHand ++ emptyHand)) 3;
     storedHistory := NoItem;
     requests := []; clockReads := 0 |}.

End Samples.

(* ===================================================================== *)
(** ** Postconditions of handlers                                         *)
(* ===================================================================== *)

Module Outcomes.

Import Encoder Slots App.

(** The source index [uniformTruncate] reads for output index [i]. *)
Definition sampleIndex (N targetLen i : Z) : Z :=
  (i * (N - 1)) / Z.max (targetLen - 1) 1.

(** A frame that flattens to 126 numbers. *)
Definition frameOfNumbers (frame : jsval) : Prop :=
  exists values : list jsval, components frame = Some values /\ length values = 126%nat.

(** A row of the request body: 126 numbers. *)
Definition rowOfNumbers (row : list jsval) : Prop :=
  length row = 126%nat /\ forallb is_num row = true.

(** A detection result whose hands have 21 keypoints each. *)
Definition wellFormed (handsResults : HandsResults) : Prop :=
  forall lms : list (list Landmark),
    multiHandLandmarks handsResults = Some lms ->
    Forall (fun hand => length hand = 21%nat) lms.

(** A label the encoder has a slot for. *)
Definition slotLabel (lbl : string) : bool :=
  String.eqb lbl "Left" || String.eqb lbl "Right".

(** A detection result with the given hands, in order. *)
Definition resultOf (hands : list (string * list Landmark)) : HandsResults :=
  {| multiHandLandmarks := Some (map snd hands);
     multiHandedness := Some (map (fun h => {| label := fst h |}) hands) |}.

End Outcomes.

(** Value postconditions, for the results that do not depend on the state. *)
Module Values.

Import App Outcomes.

(** Whatever world [m] starts in, a value it returns has [V]. *)
Definition returns {A : Type} (m : M A) (V : A -> Prop) : Prop :=
  forall (w w' : World) (a : A), m w = (Ok a, w') -> V a.

(** The outcome of [m] does not depend on the world it starts in. *)
Definition stateless {A : Type} (m : M A) : Prop :=
  forall w w' : World, fst (m w) = fst (m w').

End Values.

(** Relations between the worlds before and after a handler that the
    further properties use. *)
Module Handled.

Import App.

Definition sameRequests (w w' : World) : Prop := requests w' = requests w.

Definition sameCamera (w w' : World) : Prop := isCameraActive w' = isCameraActive w.

Definition sameMethod (w w' : World) : Prop := selectedMethod w' = selectedMethod w.

(** A request as [handleTranslate] builds it: to the backend, with 190
    rows. *)
Definition translationRequest (r : Request.t) : Prop :=
  Request.url r = BACKEND_URL /\ length (Request.landmarks r) = 190%nat.

(** [w'] has the requests of [w] and at most one more, a translation
    request. *)
Definition sentAtMostOne (w w' : World) : Prop :=
  requests w' = requests w \/
  exists r : Request.t, requests w' = requests w ++ [r] /\ translationRequest r.

(** [w'] is [w] after reads of the clock, entries appended to the log and
    a write of the progress; after reads of the clock only. *)
Definition batchWrites (w w' : World) : Prop :=
  exists (entries : list string) (shown : Z) (reads : nat),
    w' = set_progress shown
           (set_extractionLog (extractionLog w ++ entries)
              (set_clockReads (clockReads w + reads) w)).

Definition clockOnly (w w' : World) : Prop :=
  exists reads : nat, w' = set_clockReads (clockReads w + reads) w.

(** The environment [env] with another detector and another video. *)
Definition withDetector (env : Env) (initialize : outcome unit) (v : outcome Video.t)
    (send : Z -> outcome Encoder.HandsResults) (rounded : Z -> Z -> Z) : Env :=
  {| t := t env;
     translationMethods := translationMethods env;
     toLocaleTimeString := toLocaleTimeString env;
     toLocaleString := toLocaleString env;
     Date_now := Date_now env;
     JSON_parse := JSON_parse env;
     String_of := String_of env;
     hands_initialize := initialize;
     video := v;
     hands_send := send;
     roundedProgress := rounded;
     fetch := fetch env;
     getUserMedia := getUserMedia env;
     localStorage_setItem := localStorage_setItem env |}.

End Handled.

(* ===================================================================== *)
(** ** The interface texts: [t]                                           *)
(* ===================================================================== *)

(** [t(key, ...args)] (App.jsx 38-48, part_000 19-29).  The table is the
    module [./translations], which is not among the sources and is a
    parameter here; its entries are read as texts, an absent one being
    [undefined].  An argument is [None] for [undefined] and otherwise
    carries its [String(..)]; texts are sequences of bytes, of which only
    the braces and the digits matter to the pattern. *)
Module Translations.

Import Js.

Definition Texts : Type := string -> option string.

Definition Table : Type := string -> option Texts.

(** An entry that [||] keeps: a text that is not empty. *)
Definition present (entry : option string) : option string :=
  match entry with
  | Some EmptyString => None
  | Some s => Some s
  | None => None
  end.

(** [(translations[lang] && translations[lang][key]) || translations.en[key] || key]:
    [translations.en] is read only when the first operand is falsy, and
    reading [key] of a missing [translations.en] throws. *)
Definition text (translations : Table) (lang key : string) : outcome string :=
  let own := match translations lang with
             | Some texts => texts key
             | None => None
             end in
  match present own with
  | Some s => Ok s
  | None =>
      match translations "en"%string with
      | Some en =>
          Ok match present (en key) with
             | Some s => s
             | None => key
             end
      | None => Throw TypeError
      end
  end.

(** The class [\d]. *)
Definition isDigit (c : ascii) : bool :=
  let n := N_of_ascii c in ((48 <=? n) && (n <=? 57))%N.

(** [parseInt(idx, 10)] on a run of digits. *)
Fixpoint parseDigits (acc : N) (idx : string) : N :=
  match idx with
  | EmptyString => acc
  | String c rest => parseDigits (acc * 10 + (N_of_ascii c - 48)) rest
  end.

Definition parseInt (idx : string) : N := parseDigits 0 idx.

(** [args[i]], [undefined] beyond the arguments given. *)
Definition argument (args : list (option string)) (i : N) : option string :=
  if (i <? N.of_nat (length args))%N then nth (N.to_nat i) args None else None.

(** The callback of [replace]: [m] is the whole match, [idx] its group. *)
Definition replacement (args : list (option string)) (idx : string) : string :=
  match argument args (parseInt idx) with
  | Some a => a
  | None => ("{" ++ idx ++ "}")%string
  end.

(** The longest run of digits at the head of a text, and what follows. *)
Fixpoint digitsOf (s : string) : string * string :=
  match s with
  | EmptyString => (EmptyString, EmptyString)
  | String c rest =>
      if isDigit c then
        let '(idx, after) := digitsOf rest in (String c idx, after)
      else (EmptyString, s)
  end.

(** A match of [/\{(\d+)\}/] that starts at the head of [s]: its group.
    The run of digits is taken whole; a shorter run is followed by a digit
    and cannot be closed. *)
Definition matchAt (s : string) : option string :=
  match s with
  | String c rest =>
      if Ascii.eqb c "{" then
        match digitsOf rest with
        | (String d idx, String c' _) =>
            if Ascii.eqb c' "}" then Some (String d idx) else None
        | _ => None
        end
      else None
  | EmptyString => None
  end.

(** [s.replace(/\{(\d+)\}/g, callback)]: the text is read from left to
    right; where a match starts its replacement is written and the match is
    skipped ([inside] counts what is left of it), elsewhere the character is
    copied. *)
Fixpoint replaceFrom (args : list (option string)) (inside : nat) (s : string) : string :=
  match s with
  | EmptyString => EmptyString
  | String c rest =>
      match inside with
      | S inside' => replaceFrom args inside' rest
      | O =>
          match matchAt s with
          | Some idx =>
              (replacement args idx
               ++ replaceFrom args (S (String.length idx)) rest)%string
          | None => String c (replaceFrom args 0 rest)
          end
      end
  end.

Definition replace (args : list (option string)) (s : string) : string :=
  replaceFrom args 0 s.

Definition t (translations : Table) (lang key : string) (args : list (option string))
  : outcome string :=
  match text translations lang key with
  | Ok s => if (length args =? 0)%nat then Ok s else Ok (replace args s)
  | Throw e => Throw e
  end.

(** A text without an opening brace. *)
Fixpoint plain (s : string) : bool :=
  match s with
  | EmptyString => true
  | String c rest => negb (Ascii.eqb c "{") && plain rest
  end.

(** A run of digits that is not empty. *)
Fixpoint digits (s : string) : bool :=
  match s with
  | EmptyString => true
  | String c rest => isDigit c && digits rest
  end.

Definition index (s : string) : bool :=
  negb (String.eqb s EmptyString) && digits s.

End Translations.

(* ===================================================================== *)
(** ** The live detector                                                  *)
(* ===================================================================== *)

(** What the recording writes into the state that [handleTranslate] reads
    (App.jsx 792-855, 899-931): the accumulator behind
    [realtimeLandmarksRef] and the recorded clip. *)
Module Capture.

Import Js Encoder App.

Definition set_file (v : option string) (w : World) : World :=
  {| file := v; inputMode := inputMode w; selectedMethod := selectedMethod w;
     isProcessing := isProcessing w; progress := progress w;
     currentStage := currentStage w; results := results w; error := error w;
     extractionLog := extractionLog w; translationHistory := translationHistory w;
     isCameraActive := isCameraActive w; realtimeLandmarks := realtimeLandmarks w;
     storedHistory := storedHistory w; requests := requests w;
     clockReads := clockReads w |}.

(** The [hands.onResults] callback of the live detector (App.jsx 808-811). *)
Definition onResults (results : HandsResults) : M unit :=
  frameLandmarks <- lift (extractTwoHandLandmarks results) ;;
  modify (fun w => set_realtimeLandmarks (push (realtimeLandmarks w) frameLandmarks) w).

(** [startRealtimeLandmarkExtraction] (App.jsx 822-846) as far as it
    writes the accumulator; [ready] says that the detector, the camera
    element and the canvas are all there. *)
Definition startRealtimeLandmarkExtraction (ready : bool) : M unit :=
  if ready then modify (set_realtimeLandmarks []) else ret tt.

(** One run of the interval callback (App.jsx 840-845): [sent] is the
    result the detector hands to [onResults], or [None] when the camera has
    no frame ready or the detector calls nothing back.  An exception of
    [onResults] rejects the promise of this run, which nobody awaits. *)
Definition tick (sent : option HandsResults) : M unit :=
  match sent with
  | Some results => tryCatch (onResults results) (fun _ => ret tt)
  | None => ret tt
  end.

Fixpoint ticks (sent : list (option HandsResults)) : M unit :=
  match sent with
  | [] => ret tt
  | first :: rest => tick first ;; ticks rest
  end.

(** The [onstop] handler of the recorder (App.jsx 899-931) as far as it
    writes the state: [recordedFile] is the clip built from the chunks, or
    the exception of building it, which the handler catches. *)
Definition onstop (recordedFile : outcome string) : M unit :=
  match recordedFile with
  | Ok name => modify (set_file (Some name))
  | Throw _ => ret tt
  end.

(** A recording: the start of the live extraction, the frames of the
    interval, the end of the recorder. *)
Definition recording (ready : bool) (sent : list (option HandsResults))
    (recordedFile : outcome string) : M unit :=
  startRealtimeLandmarkExtraction ready ;; ticks sent ;; onstop recordedFile.

(** The frames that the encoder returns for the results sent, in order. *)
Definition encoded (sent : list (option HandsResults)) : list jsval :=
  flat_map (fun s => match s with
                     | Some results =>
                         match extractTwoHandLandmarks results with
                         | Ok frame => [frame]
                         | Throw _ => []
                         end
                     | None => []
                     end) sent.

End Capture.

(* ===================================================================== *)
(** ** Sample texts and recordings                                        *)
(* ===================================================================== *)

Module Recorded.

Import Encoder App Translations.

(** A table with an English text that has two placeholders and a German
    table that lacks it. *)
Definition sampleTable : Table :=
  fun lang =>
    if String.eqb lang "en" then
      Some (fun key =>
              if String.eqb key "log_extract_frames"
              then Some "Extracting {0} frames at {1} FPS"%string
              else if String.eqb key "uploadButton" then Some "Upload"%string
              else None)
    else if String.eqb lang "de" then
      Some (fun key =>
              if String.eqb key "uploadButton" then Some "Hochladen"%string else None)
    else None.

(** A hand of 21 keypoints. *)
Definition hand : list Landmark :=
  repeat {| x := 0.5%float; y := 0.25%float; z := 0%float |} 21.

(** What the detector hands over for three runs of the interval: a frame
    without hands, a run without a frame, a frame with a left hand and a
    frame whose hand has no handedness entry. *)
Definition sampleFrames : list (option HandsResults) :=
  [ Some {| multiHandLandmarks := None; multiHandedness := None |};
    None;
    Some {| multiHandLandmarks := Some [hand];
            multiHandedness := Some [{| label := "Left" |}] |};
    Some {| multiHandLandmarks := Some [hand]; multiHandedness := Some [] |} ].

End Recorded.

(* ===================================================================== *)
(** * Properties                                                          *)
(* ===================================================================== *)

(** ** Counting loops *)

Section Loops.

Variable A : Type.

Lemma iterate_push (f : Z -> A) (n : nat) :
  forall (i : Z) (out : list A),
    iterate n i (fun i out => push out (f i)) out = out ++ map f (counters i n).
Proof.
  induction n as [|n IH]; intros i out; simpl.
  - now rewrite app_nil_r.
  - rewrite IH. unfold push, counters. rewrite <- app_assoc. simpl.
    rewrite Z.add_0_r. do 2 f_equal.
    rewrite <- seq_shift, !map_map. apply map_ext. intros k. f_equal. lia.
Qed.

Lemma iterate_push_const (v : A) (n : nat) :
  forall (i : Z) (l : list A),
    iterate n i (fun _ l => push l v) l = l ++ repeat v n.
Proof.
  induction n as [|n IH]; intros i l; simpl.
  - now rewrite app_nil_r.
  - rewrite IH. unfold push. now rewrite <- app_assoc.
Qed.

Lemma counters_length (i : Z) (n : nat) : length (counters i n) = n.
Proof. unfold counters. now rewrite length_map, length_seq. Qed.

Lemma counters_nth_error (i : Z) (n k : nat) :
  (k < n)%nat -> nth_error (counters i n) k = Some (i + Z.of_nat k).
Proof.
  intros Hk. unfold counters.
  rewrite nth_error_map, nth_error_seq.
  destruct (Nat.ltb_spec k n); [reflexivity | lia].
Qed.

Lemma for_loop_push_length (f : Z -> A) (hi : Z) :
  length (for_loop 0 hi (fun i out => push out (f i)) []) = Z.to_nat hi.
Proof.
  unfold for_loop. rewrite iterate_push. simpl.
  rewrite length_map, counters_length. f_equal. lia.
Qed.

Lemma for_loop_push_nth_error (f : Z -> A) (hi i : Z) :
  0 <= i < hi ->
  nth_error (for_loop 0 hi (fun i out => push out (f i)) []) (Z.to_nat i) = Some (f i).
Proof.
  intros Hi. unfold for_loop. rewrite iterate_push. simpl.
  rewrite nth_error_map, counters_nth_error by lia.
  simpl. f_equal. f_equal. lia.
Qed.

Lemma for_loop_push_const (v : A) (hi : Z) (l : list A) :
  for_loop 0 hi (fun _ l => push l v) l = l ++ repeat v (Z.to_nat hi).
Proof. unfold for_loop. rewrite iterate_push_const. do 2 f_equal. lia. Qed.

End Loops.

(** ** The sequence normalizer *)

Import Normalizer.

Lemma len_nonneg {A : Type} (l : list A) : 0 <= len l.
Proof. unfold len. lia. Qed.

(** The source index of output index [i] lies inside the input whenever the
    input is longer than the target. *)
Lemma sample_index_in_range (N T i : Z) :
  T < N -> 0 <= i < T -> 0 <= i * (N - 1) / Z.max (T - 1) 1 < N.
Proof.
  intros HN Hi.
  assert (0 < Z.max (T - 1) 1) as Hm by lia.
  split.
  - apply Z.div_pos; [|assumption]. apply Z.mul_nonneg_nonneg; lia.
  - apply Z.div_lt_upper_bound; [assumption|].
    destruct (Z.max_spec (T - 1) 1) as [[Hc ->]|[Hc ->]].
    + assert (i = 0) as -> by lia. lia.
    + assert (i * (N - 1) <= (T - 1) * (N - 1)) by (apply Z.mul_le_mono_nonneg_r; lia).
      lia.
Qed.

Lemma get_in_range (a : list jsval) (idx : Z) :
  0 <= idx < len a ->
  nth_error a (Z.to_nat idx) = Some (get a idx).
Proof.
  unfold get, len. intros H.
  destruct (Z.ltb_spec idx 0); [lia|].
  apply nth_error_nth'. lia.
Qed.

(** Below the input length and above zero, [uniformTruncate] is its loop. *)
Lemma uniformTruncate_sampled (sequence : list jsval) (targetLen : Z) :
  0 < targetLen < len sequence ->
  uniformTruncate sequence targetLen =
  for_loop 0 targetLen
    (fun i out =>
       push out (get sequence (i * (len sequence - 1) / Z.max (targetLen - 1) 1)))
    [].
Proof.
  intros H. unfold uniformTruncate.
  destruct (Z.leb_spec (len sequence) targetLen); [lia|].
  destruct (Z.leb_spec targetLen 0); [lia|]. reflexivity.
Qed.

Lemma uniformTruncate_nonpositive (sequence : list jsval) (targetLen : Z) :
  targetLen <= 0 -> targetLen < len sequence ->
  uniformTruncate sequence targetLen = [].
Proof.
  intros H0 H. unfold uniformTruncate.
  destruct (Z.leb_spec (len sequence) targetLen); [lia|].
  destruct (Z.leb_spec targetLen 0); [reflexivity|lia].
Qed.

Lemma normalize_longer (raw : list jsval) (T : Z) :
  T < len raw -> normalize raw T = uniformTruncate raw T.
Proof.
  intros H. unfold normalize.
  destruct (Z.gtb_spec (len raw) T); [reflexivity|lia].
Qed.

Lemma normalize_shorter (raw : list jsval) (T : Z) :
  len raw < T -> normalize raw T = raw ++ repeat padFrame (Z.to_nat (T - len raw)).
Proof.
  intros H. unfold normalize.
  destruct (Z.gtb_spec (len raw) T); [lia|].
  destruct (Z.ltb_spec (len raw) T); [|lia].
  apply for_loop_push_const.
Qed.

Lemma normalize_exact (raw : list jsval) (T : Z) :
  len raw = T -> normalize raw T = raw.
Proof.
  intros H. unfold normalize.
  destruct (Z.gtb_spec (len raw) T); [lia|].
  destruct (Z.ltb_spec (len raw) T); [lia|reflexivity].
Qed.

(** A negative target behaves like zero: the guard [targetLen <= 0] of
    [uniformTruncate] answers with the empty sequence. *)
Lemma normalize_negative (raw : list jsval) (T : Z) :
  T < 0 -> normalize raw T = [].
Proof.
  intros H. pose proof (len_nonneg raw).
  rewrite normalize_longer by lia. apply uniformTruncate_nonpositive; lia.
Qed.

(** The live path computes the same sequence as the batch path. *)
Lemma normalizeLive_normalize (realtimeLandmarks : list jsval) (T : Z) :
  fst (normalizeLive realtimeLandmarks T) = normalize realtimeLandmarks T.
Proof.
  unfold normalizeLive, normalize.
  destruct (len realtimeLandmarks >? T); [reflexivity|].
  destruct (len realtimeLandmarks <? T); reflexivity.
Qed.

Lemma normalize_len (raw : list jsval) (T : Z) :
  0 <= T -> len (normalize raw T) = T.
Proof.
  intros HT.
  destruct (Z.lt_trichotomy (len raw) T) as [Hlt|[Heq|Hgt]].
  - rewrite normalize_shorter by assumption.
    unfold len in *. rewrite length_app, repeat_length. lia.
  - now rewrite normalize_exact.
  - rewrite normalize_longer by assumption.
    destruct (Z.eq_dec T 0) as [->|Hpos].
    + now rewrite uniformTruncate_nonpositive.
    + rewrite uniformTruncate_sampled by lia.
      unfold len. rewrite for_loop_push_length. lia.
Qed.

(** C1. For every raw sequence and every target length [T] (a length: not
    negative), the truncate-or-pad step returns a sequence of exactly [T]
    elements; so does the copy of the step on the live path. *)
Theorem normalize_length (raw : list jsval) (T : Z) :
  0 <= T ->
  len (normalize raw T) = T /\ len (fst (normalizeLive raw T)) = T.
Proof.
  intros HT. rewrite normalizeLive_normalize.
  split; now apply normalize_len.
Qed.

Lemma normalize_length_witness :
  len (normalize [Undefined; Undefined; Undefined] 2) = 2 /\
  len (fst (normalizeLive [Undefined; Undefined; Undefined] 2)) = 2.
Proof. apply normalize_length. lia. Defined.

(** C2. When the input is longer than the target ([N > T]), output index [i]
    of the normalizer holds the input element at index
    [floor (i * (N-1) / max (T-1, 1))], an index inside the input; and when
    [T > 1] the output starts with the input's first element and ends (at
    its index [T-1]) with the input's last element (index [N-1]). *)
Theorem normalize_uniform_sampling (raw : list jsval) (T : Z) :
  T < len raw ->
  (forall i : Z, 0 <= i < T ->
     let idx := i * (len raw - 1) / Z.max (T - 1) 1 in
     0 <= idx < len raw /\
     nth_error (normalize raw T) (Z.to_nat i) = nth_error raw (Z.to_nat idx)) /\
  (1 < T ->
     nth_error (normalize raw T) 0 = nth_error raw 0 /\
     nth_error (normalize raw T) (Z.to_nat (T - 1)) =
       nth_error raw (Z.to_nat (len raw - 1))).
Proof.
  intros HN.
  assert (forall i : Z, 0 <= i < T ->
     let idx := i * (len raw - 1) / Z.max (T - 1) 1 in
     0 <= idx < len raw /\
     nth_error (normalize raw T) (Z.to_nat i) = nth_error raw (Z.to_nat idx)) as Hsample.
  { intros i Hi idx.
    assert (0 <= idx < len raw) as Hidx by (apply sample_index_in_range; lia).
    split; [exact Hidx|].
    rewrite normalize_longer, uniformTruncate_sampled by lia.
    rewrite for_loop_push_nth_error by lia.
    symmetry. now apply get_in_range. }
  split; [exact Hsample|].
  intros HT. split.
  - destruct (Hsample 0) as [_ E]; [lia|].
    simpl in E. exact E.
  - destruct (Hsample (T - 1)) as [_ E]; [lia|].
    rewrite E. do 2 f_equal.
    rewrite Z.max_l by lia.
    rewrite Z.mul_comm. apply Z.div_mul. lia.
Qed.

Lemma normalize_uniform_sampling_witness :
  let raw := [Num 0%float; Num 1%float; Num 2%float; Num 3%float; Num 4%float] in
  (forall i : Z, 0 <= i < 3 ->
     let idx := i * (len raw - 1) / Z.max (3 - 1) 1 in
     0 <= idx < len raw /\
     nth_error (normalize raw 3) (Z.to_nat i) = nth_error raw (Z.to_nat idx)) /\
  (1 < 3 ->
     nth_error (normalize raw 3) 0 = nth_error raw 0 /\
     nth_error (normalize raw 3) (Z.to_nat (3 - 1)) =
       nth_error raw (Z.to_nat (len raw - 1))).
Proof.
  intros raw. apply (normalize_uniform_sampling raw 3). unfold raw, len. simpl. lia.
Defined.

(** The example of the specification in small: five frames sampled to three
    keep frames 0, 2 and 4. *)
Example normalize_5_to_3 :
  normalize [Num 0%float; Num 1%float; Num 2%float; Num 3%float; Num 4%float] 3
  = [Num 0%float; Num 2%float; Num 4%float].
Proof. reflexivity. Qed.

Lemma padFrame_triples :
  padFrame = Arr (repeat (Arr [Num (-10)%float; Num (-10)%float; Num (-10)%float]) 42).
Proof. reflexivity. Qed.

Lemma padFrame_flat : flat padFrame = Ok (repeat (Num (-10)%float) 126).
Proof. reflexivity. Qed.

(** C3. When the input is shorter than the target ([N < T]), the output is
    the input verbatim followed by [T - N] pad frames, and a pad frame is 42
    triples [[-10, -10, -10]], 126 values [-10] when flattened. *)
Theorem normalize_pads (raw : list jsval) (T : Z) :
  len raw < T ->
  normalize raw T = raw ++ repeat padFrame (Z.to_nat (T - len raw)) /\
  firstn (length raw) (normalize raw T) = raw /\
  skipn (length raw) (normalize raw T) = repeat padFrame (Z.to_nat (T - len raw)) /\
  padFrame = Arr (repeat (Arr [Num (-10)%float; Num (-10)%float; Num (-10)%float]) 42) /\
  flat padFrame = Ok (repeat (Num (-10)%float) 126).
Proof.
  intros H. rewrite normalize_shorter by assumption.
  repeat split.
  - rewrite firstn_app, Nat.sub_diag, firstn_all. simpl. now rewrite app_nil_r.
  - rewrite skipn_app, Nat.sub_diag, skipn_all. reflexivity.
Qed.

Lemma normalize_pads_witness :
  normalize [Num 7%float] 3 = [Num 7%float] ++ repeat padFrame (Z.to_nat (3 - len [Num 7%float])) /\
  firstn (length [Num 7%float]) (normalize [Num 7%float] 3) = [Num 7%float] /\
  skipn (length [Num 7%float]) (normalize [Num 7%float] 3)
    = repeat padFrame (Z.to_nat (3 - len [Num 7%float])) /\
  padFrame = Arr (repeat (Arr [Num (-10)%float; Num (-10)%float; Num (-10)%float]) 42) /\
  flat padFrame = Ok (repeat (Num (-10)%float) 126).
Proof. apply (normalize_pads [Num 7%float] 3). unfold len. simpl. lia. Defined.

(** C4. The normalizer is idempotent, for every sequence and every target
    (negative ones included). *)
Theorem normalize_idempotent (s : list jsval) (n : Z) :
  normalize (normalize s n) n = normalize s n.
Proof.
  destruct (Z.lt_ge_cases n 0) as [Hneg|Hpos].
  - now rewrite !normalize_negative.
  - apply normalize_exact. now apply normalize_len.
Qed.

(** ** The frame encoder *)

Import Encoder Slots.

Lemma iterateE_fold {S X : Type} (step : X -> S -> S) (body : Z -> S -> outcome S)
    (xs : list X) :
  forall (off : Z) (s : S),
    (forall (k : nat) (x : X) (s : S),
        nth_error xs k = Some x -> body (off + Z.of_nat k) s = Ok (step x s)) ->
    iterateE (length xs) off body s = Ok (fold_left (fun s x => step x s) xs s).
Proof.
  induction xs as [|x xs IH]; intros off s Hbody; simpl.
  - reflexivity.
  - rewrite <- (Z.add_0_r off) at 1. change 0 with (Z.of_nat 0).
    rewrite (Hbody 0%nat x s eq_refl).
    apply IH. intros k x' s' Hk.
    replace (off + 1 + Z.of_nat k) with (off + Z.of_nat (Datatypes.S k)) by lia.
    now apply Hbody.
Qed.

Lemma nth_error_combine {A B : Type} (l : list A) (l' : list B) :
  forall (k : nat) (a : A) (b : B),
    nth_error (combine l l') k = Some (a, b) ->
    nth_error l k = Some a /\ nth_error l' k = Some b.
Proof.
  revert l'. induction l as [|a0 l IH]; intros [|b0 l'] [|k] a b H;
    simpl in *; try discriminate.
  - injection H as -> ->. now split.
  - now apply IH.
Qed.

Lemma assignHand_assign (lms : list (list Landmark)) (hs : list Handedness)
    (k : nat) (h : string * list Landmark) (hands : list jsval * list jsval) :
  nth_error (detectedHands lms hs) k = Some h ->
  assignHand lms hs (0 + Z.of_nat k) hands = Ok (assign h hands).
Proof.
  destruct h as [lbl pts]. intros H.
  apply nth_error_combine in H as [Hl Hp].
  rewrite nth_error_map in Hl.
  unfold assignHand, assign. simpl. rewrite Nat2Z.id.
  destruct (nth_error hs k) as [h|]; [|discriminate].
  simpl in Hl. injection Hl as <-.
  rewrite (nth_error_nth _ _ _ Hp).
  destruct (String.eqb (label h) "Left"); [reflexivity|].
  destruct (String.eqb (label h) "Right"); reflexivity.
Qed.

Lemma detectedHands_length (lms : list (list Landmark)) (hs : list Handedness) :
  (length lms <= length hs)%nat -> length (detectedHands lms hs) = length lms.
Proof.
  intros H. unfold detectedHands. rewrite length_combine, length_map. lia.
Qed.

Lemma assigned_slots (hands : list (string * list Landmark)) (L R : list jsval) :
  fold_left (fun s h => assign h s) hands (L, R) =
  (match lastLabelled "Left" hands with
   | Some points => landmarkArray points
   | None => L
   end,
   match lastLabelled "Right" hands with
   | Some points => landmarkArray points
   | None => R
   end).
Proof.
  induction hands as [|[lbl pts] hands IH] using rev_ind.
  - reflexivity.
  - rewrite fold_left_app, IH. unfold lastLabelled.
    rewrite rev_app_distr. simpl. unfold assign. simpl.
    destruct (String.eqb_spec lbl "Left") as [->|HL]; simpl.
    + reflexivity.
    + destruct (String.eqb_spec lbl "Right") as [->|HR]; reflexivity.
Qed.

(** The encoder on a result whose two arrays are present and whose
    [multiHandedness] has an entry for every hand. *)
Lemma extractTwoHandLandmarks_slots (lms : list (list Landmark)) (hs : list Handedness) :
  (length lms <= length hs)%nat ->
  extractTwoHandLandmarks {| multiHandLandmarks := Some lms; multiHandedness := Some hs |}
  = Ok (Arr (slot "Left" (detectedHands lms hs) ++ slot "Right" (detectedHands lms hs))).
Proof.
  intros H. unfold extractTwoHandLandmarks, for_loopE. simpl.
  replace (Z.to_nat (len lms - 0)) with (length (detectedHands lms hs))
    by (rewrite detectedHands_length by assumption; unfold len; lia).
  rewrite (iterateE_fold assign) by (intros; now apply assignHand_assign).
  rewrite assigned_slots. simpl. unfold slot.
  destruct (lastLabelled "Left" _), (lastLabelled "Right" _); reflexivity.
Qed.

Lemma emptyHand_zeroPoints : emptyHand = zeroPoints.
Proof. reflexivity. Qed.

(** C5. The encoder fills each slot from the last detected hand that
    carries the slot's label, point for point, and with 21 zero points when
    no hand carries it.  So a Left and a Right hand land in their slots in
    either detection order, of two hands with the same label the later one
    stays, and a result without hands gives 126 zeros. *)
Theorem encoder_assigns_slots :
  (forall (lms : list (list Landmark)) (hs : list Handedness),
      (length lms <= length hs)%nat ->
      extractTwoHandLandmarks
        {| multiHandLandmarks := Some lms; multiHandedness := Some hs |}
      = Ok (Arr (slot "Left" (detectedHands lms hs)
                 ++ slot "Right" (detectedHands lms hs)))) /\
  (forall l r : list Landmark,
      extractTwoHandLandmarks
        {| multiHandLandmarks := Some [l; r];
           multiHandedness := Some [{| label := "Left" |}; {| label := "Right" |}] |}
      = Ok (Arr (landmarkArray l ++ landmarkArray r)) /\
      extractTwoHandLandmarks
        {| multiHandLandmarks := Some [r; l];
           multiHandedness := Some [{| label := "Right" |}; {| label := "Left" |}] |}
      = Ok (Arr (landmarkArray l ++ landmarkArray r))) /\
  (forall earlier later : list Landmark,
      extractTwoHandLandmarks
        {| multiHandLandmarks := Some [earlier; later];
           multiHandedness := Some [{| label := "Left" |}; {| label := "Left" |}] |}
      = Ok (Arr (landmarkArray later ++ zeroPoints)) /\
      extractTwoHandLandmarks
        {| multiHandLandmarks := Some [earlier; later];
           multiHandedness := Some [{| label := "Right" |}; {| label := "Right" |}] |}
      = Ok (Arr (zeroPoints ++ landmarkArray later))) /\
  (forall hs : option (list Handedness),
      extractTwoHandLandmarks {| multiHandLandmarks := Some []; multiHandedness := hs |}
      = Ok (Arr (zeroPoints ++ zeroPoints)) /\
      extractTwoHandLandmarks {| multiHandLandmarks := None; multiHandedness := hs |}
      = Ok (Arr (zeroPoints ++ zeroPoints))) /\
  components (Arr (zeroPoints ++ zeroPoints)) = Some (repeat (Num 0%float) 126).
Proof.
  split; [exact extractTwoHandLandmarks_slots|].
  split; [intros l r; split; reflexivity|].
  split; [intros earlier later; split; reflexivity|].
  split; [|reflexivity].
  intros [hs|]; split; reflexivity.
Qed.

Lemma encoder_assigns_slots_witness :
  let p := {| x := 1%float; y := 2%float; z := 3%float |} in
  extractTwoHandLandmarks
    {| multiHandLandmarks := Some [[p]; [p; p]];
       multiHandedness := Some [{| label := "Right" |}; {| label := "Right" |}] |}
  = Ok (Arr (slot "Left" (detectedHands [[p]; [p; p]]
                            [{| label := "Right" |}; {| label := "Right" |}])
             ++ slot "Right" (detectedHands [[p]; [p; p]]
                                [{| label := "Right" |}; {| label := "Right" |}]))).
Proof. intros p. apply (proj1 encoder_assigns_slots). simpl. lia. Defined.

Lemma flat_triples (points : list jsval) :
  Forall triple points ->
  exists values : list jsval,
    components (Arr points) = Some values /\
    length values = (3 * length points)%nat.
Proof.
  unfold components. simpl.
  induction 1 as [|v points (a & b & c & ->) _ (values & IH & Hlen)]; simpl.
  - now exists [].
  - destruct (forallb is_num _) eqn:E; [|discriminate].
    injection IH as <-. eexists. split; [reflexivity|]. simpl. lia.
Qed.

Lemma landmarkArray_triples (hand : list Landmark) : Forall triple (landmarkArray hand).
Proof.
  unfold landmarkArray. apply Forall_map, Forall_forall.
  intros lm _. now exists (x lm), (y lm), (z lm).
Qed.

Lemma zeroPoints_triples : Forall triple zeroPoints.
Proof.
  unfold zeroPoints. apply Forall_forall. intros v Hv.
  apply repeat_spec in Hv as ->. now exists 0%float, 0%float, 0%float.
Qed.

Lemma iterateE_invariant {S : Type} (P : S -> Prop) (body : Z -> S -> outcome S) (n : nat) :
  forall (i : Z) (s s' : S),
    P s ->
    (forall (k : Z) (s s' : S),
        i <= k < i + Z.of_nat n -> P s -> body k s = Ok s' -> P s') ->
    iterateE n i body s = Ok s' -> P s'.
Proof.
  induction n as [|n IH]; intros i s s' Hs Hbody; simpl.
  - now intros [= <-].
  - destruct (body i s) as [s1|e] eqn:E; [|discriminate].
    apply IH.
    + apply (Hbody i s s1); [lia|assumption..].
    + intros k t t' Hk. apply Hbody. lia.
Qed.

Lemma assignHand_handShaped (lms : list (list Landmark)) (hs : list Handedness)
    (k : Z) (hands hands' : list jsval * list jsval) :
  Forall (fun hand => length hand = 21%nat) lms ->
  0 <= k < len lms ->
  handShaped (fst hands) /\ handShaped (snd hands) ->
  assignHand lms hs k hands = Ok hands' ->
  handShaped (fst hands') /\ handShaped (snd hands').
Proof.
  intros Hall Hk [HL HR]. unfold assignHand.
  assert (handShaped (landmarkArray (nth (Z.to_nat k) lms []))) as Hnew.
  { split; [|apply landmarkArray_triples].
    unfold landmarkArray. rewrite length_map.
    rewrite Forall_forall in Hall. apply Hall, nth_In. unfold len in Hk. lia. }
  destruct (nth_error hs (Z.to_nat k)); [|discriminate].
  destruct (String.eqb (label h) "Left"); [intros [= <-]; now split|].
  destruct (String.eqb (label h) "Right"); intros [= <-]; now split.
Qed.

Lemma padFrame_components :
  components padFrame = Some (repeat (Num (-10)%float) 126).
Proof. reflexivity. Qed.

(** C6. A frame record has exactly 126 numeric components: the frame the
    encoder returns for a detection result whose hands have 21 keypoints
    each, and the pad frame. *)
Theorem frame_record_components (handsResults : HandsResults) (frame : jsval) :
  (forall lms : list (list Landmark),
      multiHandLandmarks handsResults = Some lms ->
      Forall (fun hand => length hand = 21%nat) lms) ->
  extractTwoHandLandmarks handsResults = Ok frame ->
  (exists values : list jsval,
      components frame = Some values /\ length values = 126%nat) /\
  (exists values : list jsval,
      components padFrame = Some values /\ length values = 126%nat).
Proof.
  intros Hall Hframe. split.
  - assert (exists L R : list jsval,
               frame = Arr (L ++ R) /\ handShaped L /\ handShaped R)
      as (L & R & -> & [HL1 HL2] & [HR1 HR2]).
    { assert (handShaped emptyHand) as H0
        by (split; [reflexivity|apply zeroPoints_triples]).
      unfold extractTwoHandLandmarks in Hframe.
      destruct handsResults as [[lms|] [hs|]]; simpl in Hframe;
        try (injection Hframe as <-; now exists emptyHand, emptyHand).
      destruct (for_loopE _ _ _ _) as [[L R]|e] eqn:E; [|discriminate].
      simpl in Hframe. injection Hframe as <-.
      exists L, R. split; [reflexivity|].
      unfold for_loopE in E.
      apply (iterateE_invariant
               (fun hands => handShaped (fst hands) /\ handShaped (snd hands))) in E.
      - exact E.
      - now split.
      - intros k s s' Hk. apply assignHand_handShaped.
        + now apply Hall.
        + unfold len in *. lia. }
    destruct (flat_triples (L ++ R)) as (values & Hc & Hlen).
    { apply Forall_app. now split. }
    exists values. split; [exact Hc|].
    rewrite Hlen, length_app, HL1, HR1. reflexivity.
  - exists (repeat (Num (-10)%float) 126). split; reflexivity.
Qed.

Lemma frame_record_components_witness :
  let hand := repeat {| x := 0.5%float; y := 0.25%float; z := 0%float |} 21 in
  (exists values : list jsval,
      components (Arr (landmarkArray hand ++ zeroPoints)) = Some values /\
      length values = 126%nat) /\
  (exists values : list jsval,
      components padFrame = Some values /\ length values = 126%nat).
Proof.
  intros hand.
  apply (frame_record_components
           {| multiHandLandmarks := Some [hand];
              multiHandedness := Some [{| label := "Left" |}] |}).
  - intros lms [= <-]. repeat constructor.
  - reflexivity.
Defined.

(** ** Handlers and the relations they respect *)

Import App Frames.

Section Respects.

Context (R : World -> World -> Prop) `{!PreOrder R}.

Lemma respects_ret {A : Type} (a : A) : respects R (ret a).
Proof. intros w. simpl. reflexivity. Qed.

Lemma respects_throw {A : Type} (message : string) : respects R (@throw A message).
Proof. intros w. simpl. reflexivity. Qed.

Lemma respects_lift {A : Type} (o : outcome A) : respects R (lift o).
Proof. intros w. simpl. reflexivity. Qed.

Lemma respects_gets {A : Type} (f : World -> A) : respects R (gets f).
Proof. intros w. simpl. reflexivity. Qed.

Lemma respects_modify (f : World -> World) :
  (forall w, R w (f w)) -> respects R (modify f).
Proof. intros H w. apply H. Qed.

Lemma respects_bind {A B : Type} (m : M A) (k : A -> M B) :
  respects R m -> (forall a, respects R (k a)) -> respects R (bindM m k).
Proof.
  intros Hm Hk w. unfold bindM. specialize (Hm w).
  destruct (m w) as [[a|e] w1]; simpl in *.
  - etransitivity; [exact Hm|apply Hk].
  - exact Hm.
Qed.

Lemma respects_tryCatch {A : Type} (body : M A) (handler : string -> M A) :
  respects R body -> (forall e, respects R (handler e)) ->
  respects R (tryCatch body handler).
Proof.
  intros Hb Hh w. unfold tryCatch. specialize (Hb w).
  destruct (body w) as [[a|e] w1]; simpl in *.
  - exact Hb.
  - etransitivity; [exact Hb|apply Hh].
Qed.

Lemma respects_tryCatchFinally (body : M unit) (handler : string -> M unit) (fin : M unit) :
  respects R body -> (forall e, respects R (handler e)) -> respects R fin ->
  respects R (tryCatchFinally body handler fin).
Proof.
  intros Hb Hh Hf w. unfold tryCatchFinally.
  pose proof (respects_tryCatch body handler Hb Hh w) as Ht.
  destruct (tryCatch body handler w) as [[a|e] w1]; simpl in *.
  - etransitivity; [exact Ht|apply Hf].
  - specialize (Hf w1). destruct (fin w1) as [[a|e'] w2]; simpl in *;
      (etransitivity; [exact Ht|exact Hf]).
Qed.

Lemma respects_iterateM {S : Type} (body : Z -> S -> M S) (n : nat) :
  (forall i s, respects R (body i s)) ->
  forall i s, respects R (iterateM n i body s).
Proof.
  intros Hbody. induction n as [|n IH]; intros i s; simpl.
  - apply respects_ret.
  - apply respects_bind; [apply Hbody|intros s'; apply IH].
Qed.

Lemma respects_for_loopM {S : Type} (body : Z -> S -> M S) (lo hi : Z) (s : S) :
  (forall i s, respects R (body i s)) -> respects R (for_loopM lo hi body s).
Proof. intros H. now apply respects_iterateM. Qed.


Lemma respects_failsWithin {A : Type} (m : M A) : respects R m -> failsWithin R m.
Proof. intros H w w' e E. specialize (H w). now rewrite E in H. Qed.

End Respects.

#[local] Instance unrecorded_preorder : PreOrder unrecorded.
Proof.
  split.
  - intros w. now repeat split.
  - intros a b c (H1 & H2 & H3 & H4) (G1 & G2 & G3 & G4).
    repeat split; congruence.
Qed.

#[local] Instance keepsCap_preorder : PreOrder keepsCap.
Proof.
  split.
  - intros w H. exact H.
  - intros a b c H G Ha. exact (G (H Ha)).
Qed.

#[local] Instance sends_preorder (P : Request.t -> Prop) : PreOrder (sends P).
Proof.
  split.
  - intros w. exists []. split; [now rewrite app_nil_r|constructor].
  - intros a b c (n1 & E1 & F1) (n2 & E2 & F2).
    exists (n1 ++ n2). split.
    + now rewrite E2, E1, app_assoc.
    + apply Forall_app. now split.
Qed.

Lemma respects_readClock (R : World -> World -> Prop) {A : Type} (read : nat -> A) :
  (forall n w, R w (set_clockReads n w)) -> respects R (readClock read).
Proof. intros H w. apply H. Qed.

Create HintDb respects.

(** A write to a field the relation does not look at. *)
Ltac untouched :=
  first
    [ solve [unfold unrecorded; simpl; repeat split; reflexivity]
    | solve [unfold keepsCap, capped; simpl; auto]
    | solve [exists []; simpl; split; [now rewrite app_nil_r|constructor]] ].

(** The relation through the structure of a handler: binds, branches,
    exception handlers, loops, and writes that leave it alone. *)
Ltac respect :=
  repeat
    first
      [ apply respects_ret; typeclasses eauto
      | apply respects_throw; typeclasses eauto
      | apply respects_lift; typeclasses eauto
      | apply respects_gets; typeclasses eauto
      | apply respects_bind; [typeclasses eauto| |intros ?]
      | apply respects_tryCatch; [typeclasses eauto| |intros ?]
      | apply respects_for_loopM; [typeclasses eauto|intros ? ?]
      | apply respects_readClock; intros ? ?; untouched
      | apply respects_modify; intros ?; untouched
      | match goal with
        | |- respects _ (if ?b then _ else _) => destruct b
        | |- respects _ (match ?x with _ => _ end) => destruct x
        | |- respects _ (let _ := _ in _) => cbv zeta
        end
      | solve [eauto with respects] ].

Section Pieces.

Variable env : Env.

Context (R : World -> World -> Prop) `{!PreOrder R}.

(** The writes that [R] has to allow for the pieces below. *)
Hypothesis R_clock : forall n w, R w (set_clockReads n w).
Hypothesis R_log : forall v w, R w (set_extractionLog v w).
Hypothesis R_progress : forall v w, R w (set_progress v w).
Hypothesis R_stage : forall v w, R w (set_currentStage v w).
Hypothesis R_processing : forall v w, R w (set_isProcessing v w).
Hypothesis R_camera : forall v w, R w (set_isCameraActive v w).
Hypothesis R_realtime : forall v w, R w (set_realtimeLandmarks v w).

Lemma respects_addLog (message : string) : respects R (addLog env message).
Proof. unfold addLog, stamped, now, appendLog. respect. Qed.

#[local] Hint Resolve respects_addLog : respects.

Lemma respects_onResults (totalFrames : Z) (results : HandsResults) (st : Extraction) :
  respects R (onResults env totalFrames results st).
Proof. unfold onResults, setProgress. respect. Qed.

#[local] Hint Resolve respects_onResults : respects.

Lemma respects_extractLandmarksFromVideo :
  respects R (App.extractLandmarksFromVideo env).
Proof. unfold App.extractLandmarksFromVideo. respect. Qed.

Lemma respects_useRealtimeLandmarks (realtimeLandmarks : list jsval) :
  respects R (useRealtimeLandmarks env realtimeLandmarks).
Proof.
  unfold useRealtimeLandmarks, setProgress.
  destruct (normalizeLive realtimeLandmarks MAX_SEQ_LEN). respect.
Qed.

Lemma respects_rejectResponse (response : Response.t) :
  respects R (rejectResponse env response).
Proof. unfold rejectResponse. respect. Qed.

Lemma respects_doFetch (request : Request.t) :
  (forall w, R w (set_requests (requests w ++ [request]) w)) ->
  respects R (doFetch env request).
Proof. intros H. unfold doFetch. respect. Qed.

#[local] Hint Resolve respects_extractLandmarksFromVideo respects_useRealtimeLandmarks
  respects_rejectResponse respects_doFetch : respects.

Lemma respects_requesting (c : World) :
  (forall landmarks w,
      R w (set_requests
             (requests w ++ [{| Request.url := BACKEND_URL;
                                Request.landmarks := landmarks;
                                Request.method := "reranked_s2g_beam_g2t" |}]) w)) ->
  respects R (App.requesting env c).
Proof.
  intros H. unfold App.requesting, setCurrentStage, setExtractionLog, setProgress,
    stamped, now.
  respect.
Qed.

Lemma respects_extractLandmarksFromVideo_000 :
  respects R (Part000.extractLandmarksFromVideo env).
Proof. unfold Part000.extractLandmarksFromVideo, stamped, now. respect. Qed.

#[local] Hint Resolve respects_extractLandmarksFromVideo_000 : respects.


End Pieces.

(** ** A failed translation *)

Lemma requesting_unrecorded (env : Env) (c : World) :
  respects unrecorded (App.requesting env c).
Proof. apply respects_requesting; try typeclasses eauto; intros; untouched. Qed.




Lemma starting_state (c w : World) :
  let w0 := snd (starting c w) in
  fst (starting c w) = Ok tt /\
  results w0 = None /\ error w0 = None /\
  translationHistory w0 = translationHistory w /\
  storedHistory w0 = storedHistory w.
Proof. unfold starting. destruct (isCameraActive c); now repeat split. Qed.



(** ** Whole handlers *)

Section Whole.

Variable env : Env.

Context (R : World -> World -> Prop) `{!PreOrder R}.

Hypothesis R_clock : forall n w, R w (set_clockReads n w).
Hypothesis R_log : forall v w, R w (set_extractionLog v w).
Hypothesis R_progress : forall v w, R w (set_progress v w).
Hypothesis R_stage : forall v w, R w (set_currentStage v w).
Hypothesis R_processing : forall v w, R w (set_isProcessing v w).
Hypothesis R_camera : forall v w, R w (set_isCameraActive v w).
Hypothesis R_realtime : forall v w, R w (set_realtimeLandmarks v w).
Hypothesis R_results : forall v w, R w (set_results v w).
Hypothesis R_error : forall v w, R w (set_error v w).
Hypothesis R_prepend :
  forall record w,
    R w (let next := keepLatest record (translationHistory w) in
         let w := if localStorage_setItem env
                  then set_storedHistory (StoredArray next) w else w in
         set_translationHistory next w).

#[local] Hint Resolve respects_addLog : respects.

Lemma respects_recordTranslation (data : Data.t) (method : string) :
  respects R (recordTranslation env data method).
Proof.
  unfold recordTranslation, prependToHistory. respect.
Qed.

#[local] Hint Resolve respects_recordTranslation : respects.

Lemma respects_starting (c : World) : respects R (starting c).
Proof.
  unfold starting, setIsProcessing, setProgress, setError, setResults, setExtractionLog,
    stopCamera, setIsCameraActive.
  respect.
Qed.

Lemma respects_failed (message : string) : respects R (failed env message).
Proof. unfold failed, setError. respect. Qed.

Lemma respects_settled (c : World) : respects R (settled env c).
Proof.
  unfold settled, startCamera, setIsProcessing, setCurrentStage, setError,
    setIsCameraActive.
  respect.
Qed.

Lemma respects_tail (c : World) (data : option Data.t) (method : string) :
  respects R
    (setProgress 100 ;;
     results <- lift (resultsOf env (selectedMethod c) data) ;;
     setResults (Some results) ;;
     match data with
     | Some data => recordTranslation env data method
     | None => ret tt
     end ;;
     addLog env (t env "log_translation_complete" [])).
Proof. unfold setProgress, setResults. respect. Qed.

Lemma respects_translate (c : World) :
  (forall landmarks w,
      R w (set_requests
             (requests w ++ [{| Request.url := BACKEND_URL;
                                Request.landmarks := landmarks;
                                Request.method := "reranked_s2g_beam_g2t" |}]) w)) ->
  respects R (App.translate env c).
Proof.
  intros H. unfold App.translate.
  destruct (file c).
  - apply respects_bind; [typeclasses eauto|apply respects_starting|intros _].
    apply respects_tryCatchFinally; [typeclasses eauto| | |].
    + apply respects_bind; [typeclasses eauto| |intros data].
      * now apply respects_requesting.
      * apply respects_tail.
    + apply respects_failed.
    + apply respects_settled.
  - unfold setError. respect.
Qed.


End Whole.

(** ** Sample runs *)

Import Samples.

(** 250 frames to 190: frames 0 and 249 are kept, every output frame is an
    input frame. *)
Example normalize_250_frames :
  normalize (map mark (seq 0 250)) 190
  = map (fun i => mark (i * 249 / 189)) (seq 0 190).
Proof. vm_compute. reflexivity. Qed.

(** 100 frames to 190: the 100 frames, then 90 pad frames. *)
Example normalize_100_frames :
  normalize (map mark (seq 0 100)) 190 = map mark (seq 0 100) ++ repeat padFrame 90.
Proof. vm_compute. reflexivity. Qed.

(** No frames to 190: 190 pad frames. *)
Example normalize_no_frames : normalize [] 190 = repeat padFrame 190.
Proof. vm_compute. reflexivity. Qed.

Example upload_run_requests :
  map Request.method
      (requests (snd (App.handleTranslate (browser (Ok tt) (Ok translated) true)
                                          (uploaded []))))
  = ["reranked_s2g_beam_g2t"%string].
Proof. vm_compute. reflexivity. Qed.

Example live_run_requests :
  map Request.method
      (requests (snd (App.handleTranslate (browser (Ok tt) (Ok translated) true) recorded)))
  = ["reranked_s2g_beam_g2t"%string].
Proof. vm_compute. reflexivity. Qed.

Example upload_run_requests_000 :
  map Request.method
      (requests (snd (Part000.handleTranslate (browser (Ok tt) (Ok translated) true)
                                              (uploaded []))))
  = ["s2g_g2t"%string].
Proof. vm_compute. reflexivity. Qed.

Example live_run_shape :
  map (@length jsval)
      (flat_map Request.landmarks
         (requests (snd (App.handleTranslate (browser (Ok tt) (Ok translated) true)
                                             recorded))))
  = repeat 126%nat 190.
Proof. vm_compute. reflexivity. Qed.

Example refused_run_error :
  error (snd (App.handleTranslate (browser (Ok tt) (Ok refused) true) (uploaded [])))
  = Some ("Server error: " ++ errorBody ++ "...")%string.
Proof. vm_compute. reflexivity. Qed.

(** ** The message of a refused request *)

(** C7. The [if (!response.ok)] block always throws the generic message with
    the first 100 characters of the body, whatever [JSON.parse] and the
    [error] entry give: the error built from the entry is thrown inside the
    [try] and caught by its own [catch].  So for the body
    [errorBody], which parses to an object whose [error] entry is
    [Model not loaded], the handler reports the generic message and not the
    entry. *)
Theorem refusal_message_ignores_error_entry :
  (forall (env : Env) (response : Response.t) (w : World),
      rejectResponse env response w
      = (Throw ("Server error: " ++ substring 0 100 (Response.text response) ++ "...")%string,
         w)) /\
  (let env := browser (Ok tt) (Ok refused) true in
   JSON_parse env (Response.text refused) = Ok errorObject /\
   bind (errorField errorObject) (fun error => Ok (errorMessage env error))
     = Ok "Model not loaded"%string /\
   error (snd (App.handleTranslate env (uploaded [])))
     = Some ("Server error: " ++ errorBody ++ "...")%string /\
   error (snd (Part000.handleTranslate env (uploaded [])))
     = Some ("Server error: " ++ errorBody ++ "...")%string).
Proof.
  split.
  - intros env response w. unfold rejectResponse, tryCatch, bindM, lift.
    destruct (JSON_parse env (Response.text response)) as [errorData|e];
      [|reflexivity].
    destruct (errorField errorData); reflexivity.
  - repeat split; vm_compute; reflexivity.
Qed.

(** ** The method a request carries *)

Lemma sends_elsewhere (P : Request.t -> Prop) (w w' : World) :
  requests w' = requests w -> sends P w w'.
Proof. intros E. exists []. split; [now rewrite app_nil_r|constructor]. Qed.

Lemma sends_one (P : Request.t -> Prop) (request : Request.t) (w : World) :
  P request -> sends P w (set_requests (requests w ++ [request]) w).
Proof. intros H. exists [request]. split; [reflexivity|now constructor]. Qed.

Lemma translate_sends (env : Env) (c : World) :
  respects (sends (fun r => Request.method r = "reranked_s2g_beam_g2t"%string))
           (App.translate env c).
Proof.
  apply respects_translate; try typeclasses eauto; intros;
    try (apply sends_elsewhere; reflexivity).
  - apply sends_elsewhere. simpl. now destruct (localStorage_setItem env).
  - now apply sends_one.
Qed.



(** In App.jsx nothing writes the selected method: [setSelectedMethod] is
    named only in markup that is commented out (App.jsx 1673-1697), and no
    handler calls it.  The handlers leave the selected method as it is, so
    it stays the initial one of [mounted], which is the fixed string: on
    the batch path of App.jsx too the method sent is the selected one. *)
#[local] Instance sameMethod_preorder : PreOrder Handled.sameMethod.
Proof.
  split.
  - intros w. reflexivity.
  - intros a b c H G. unfold Handled.sameMethod in *. congruence.
Qed.

Lemma translate_sameMethod (env : Env) (c : World) :
  respects Handled.sameMethod (App.translate env c).
Proof.
  apply respects_translate; try typeclasses eauto; intros;
    unfold Handled.sameMethod; cbn;
    repeat match goal with |- context [if ?b then _ else _] => destruct b end;
    reflexivity.
Qed.

Lemma selected_method_kept (env : Env) (op : HistoryOp) (w : World) :
  selectedMethod (snd (run env op w)) = selectedMethod w.
Proof.
  destruct op as [| | |recordId]; cbn [run].
  - unfold loadHistory, bindM, gets. cbn. now destruct (storedHistory w).
  - exact (translate_sameMethod env w w).
  - unfold clearHistory, bindM, modify. cbn. now destruct (localStorage_setItem env).
  - unfold deleteHistoryItem, bindM, modify, gets. cbn.
    now destruct (localStorage_setItem env).
Qed.

Lemma request_method_default (env : Env) (w : World) :
  selectedMethod w = selectedMethod (mounted NoItem) ->
  sends (fun r => Request.method r = selectedMethod w)
        w (snd (App.handleTranslate env w)).
Proof.
  intros E. rewrite E. exact (translate_sends env w w).
Qed.

(** ** The translation history *)

Lemma keepLatest_unfold (record : HistoryRecord.t) (prev : list HistoryRecord.t) :
  keepLatest record prev = record :: firstn 9 prev.
Proof. reflexivity. Qed.

Lemma keepLatest_length (record : HistoryRecord.t) (prev : list HistoryRecord.t) :
  (length (keepLatest record prev) <= 10)%nat.
Proof.
  pose proof (length_firstn 9 prev). rewrite keepLatest_unfold. cbn [length]. lia.
Qed.

Lemma keepLatest_full (record : HistoryRecord.t) (prev : list HistoryRecord.t) :
  length prev = 10%nat ->
  keepLatest record prev = record :: removelast prev /\
  length (keepLatest record prev) = 10%nat.
Proof.
  intros H. rewrite keepLatest_unfold. split.
  - f_equal. rewrite removelast_firstn_len, H. reflexivity.
  - pose proof (length_firstn 9 prev). cbn [length]. lia.
Qed.

Lemma keepStored_length (parsed : list HistoryRecord.t) :
  (length (keepStored parsed) <= 10)%nat.
Proof. unfold keepStored. rewrite length_firstn. lia. Qed.

Lemma withoutRecord_length (recordId : Z) (history : list HistoryRecord.t) :
  (length (withoutRecord recordId history) <= length history)%nat.
Proof. apply filter_length_le. Qed.

Lemma keepsCap_elsewhere (w w' : World) :
  translationHistory w' = translationHistory w -> keepsCap w w'.
Proof. unfold keepsCap, capped. now intros ->. Qed.

Lemma translate_keepsCap (env : Env) (c : World) :
  respects keepsCap (App.translate env c).
Proof.
  apply respects_translate; try typeclasses eauto; intros;
    try (apply keepsCap_elsewhere; reflexivity).
  intros _. unfold capped. cbv zeta. cbn [translationHistory set_translationHistory].
  apply keepLatest_length.
Qed.

Lemma run_keepsCap (env : Env) (op : HistoryOp) (w : World) :
  keepsCap w (snd (run env op w)).
Proof.
  destruct op as [| | |recordId]; simpl.
  - unfold loadHistory, bindM, gets.
    destruct (storedHistory w); try (intros H; exact H).
    intros _. unfold capped, setTranslationHistory, modify.
    cbn [snd translationHistory set_translationHistory]. apply keepStored_length.
  - exact (translate_keepsCap env w w).
  - intros _. unfold capped. simpl. lia.
  - unfold keepsCap, capped. simpl. intros H.
    pose proof (withoutRecord_length recordId (translationHistory w)).
    destruct (localStorage_setItem env); simpl; lia.
Qed.

Lemma reachable_capped (w : World) : reachable w -> capped w.
Proof.
  induction 1 as [w E|env op w _ IH|handler w _ IH E].
  - unfold capped. rewrite E. simpl. lia.
  - now apply run_keepsCap.
  - unfold capped in *. now rewrite E.
Qed.

(** What [handleTranslate] comes to when its [try] block gets as far as the
    body [data] of the response: the rest of the block on the world the
    request left, then the [finally] block. *)
Lemma handleTranslate_answered (env : Env) (w w1 : World) (data : Data.t)
    (results : Results.t) :
  file w <> None ->
  App.requesting env w (snd (starting w w)) = (Ok (Some data), w1) ->
  resultsOf env (selectedMethod w) (Some data) = Ok results ->
  App.handleTranslate env w
  = settled env w (snd (App.completing env w (Some data) w1)) /\
  fst (App.completing env w (Some data) w1) = Ok tt.
Proof.
  intros Hfile Hreq Hres.
  assert (fst (App.completing env w (Some data) w1) = Ok tt) as Hok.
  { unfold App.completing, bindM at 1, setProgress, modify.
    unfold bindM at 1, lift. rewrite Hres. reflexivity. }
  split; [|exact Hok].
  unfold App.handleTranslate, bindM at 1, gets, App.translate.
  destruct (file w) as [name|]; [clear Hfile|contradiction].
  unfold bindM at 1.
  pose proof (starting_state w w) as [Hs _].
  destruct (starting w w) as [[[]|e] w0]; simpl in Hs, Hreq; [|discriminate].
  unfold tryCatchFinally, tryCatch, App.translating, bindM at 1. rewrite Hreq.
  destruct (App.completing env w (Some data) w1) as [[[]|e] w2]; simpl in Hok;
    [reflexivity|discriminate].
Qed.

(** C9. In every world the component can reach, the history has at most 10
    entries.  Prepending keeps the new record first and the nine most recent
    before it, in their order; on a full history this drops the oldest
    entry and the length stays 10.  A translation that succeeds prepends
    its record in this way, and loading keeps the first 10 stored
    entries. *)
Theorem history_capped (w : World) :
  reachable w ->
  capped w /\
  (forall record : HistoryRecord.t,
      keepLatest record (translationHistory w)
      = record :: firstn 9 (translationHistory w) /\
      (length (keepLatest record (translationHistory w)) <= 10)%nat /\
      (length (translationHistory w) = 10%nat ->
       keepLatest record (translationHistory w)
       = record :: removelast (translationHistory w) /\
       length (keepLatest record (translationHistory w)) = 10%nat)) /\
  (forall (env : Env) (w1 : World) (data : Data.t) (results : Results.t),
      file w <> None ->
      App.requesting env w (snd (starting w w)) = (Ok (Some data), w1) ->
      resultsOf env (selectedMethod w) (Some data) = Ok results ->
      translationHistory (snd (App.handleTranslate env w))
      = keepLatest
          {| HistoryRecord.id := Date_now env (clockReads w1);
             HistoryRecord.time := toLocaleString env (S (clockReads w1));
             HistoryRecord.translation := Data.translation data;
             HistoryRecord.confidence := Data.confidence data;
             HistoryRecord.method := "reranked_s2g_beam_g2t" |}
          (translationHistory w)) /\
  (forall parsed : list HistoryRecord.t,
      storedHistory w = StoredArray parsed ->
      translationHistory (snd (loadHistory w)) = firstn 10 parsed /\
      (length (translationHistory (snd (loadHistory w))) <= 10)%nat).
Proof.
  intros Hreach. split; [now apply reachable_capped|].
  split; [|split].
  - intros record. split; [apply keepLatest_unfold|].
    split; [apply keepLatest_length|apply keepLatest_full].
  - intros env w1 data results Hfile Hreq Hres.
    destruct (handleTranslate_answered env w w1 data results Hfile Hreq Hres) as [-> _].
    pose proof (requesting_unrecorded env w (snd (starting w w))) as (_ & _ & Q & _).
    rewrite Hreq in Q. simpl in Q.
    destruct (starting_state w w) as (_ & _ & _ & Hhist & _).
    rewrite Hhist in Q.
    unfold settled, App.completing, startCamera.
    unfold bindM at 3, setProgress, modify. unfold bindM at 3, lift. rewrite Hres.
    destruct (inputMode w), (getUserMedia env); simpl; now rewrite Q.
  - intros parsed Hstored. unfold loadHistory, bindM, gets. rewrite Hstored. simpl.
    split; [reflexivity|apply keepStored_length].
Qed.

(** ** Witnesses on the sample runs *)


Lemma history_capped_witness :
  let stored := map entry [12; 11; 10; 9; 8; 7; 6; 5; 4; 3; 2; 1] in
  let w := snd (run (browser (Ok tt) (Ok translated) true) Load (mounted (StoredArray stored))) in
  capped w /\
  translationHistory w = map entry [12; 11; 10; 9; 8; 7; 6; 5; 4; 3] /\
  keepLatest (entry 13) (translationHistory w)
  = map entry [13; 12; 11; 10; 9; 8; 7; 6; 5; 4].
Proof.
  intros stored w.
  assert (reachable w) as Hreach by (apply reach_history, reach_mount; reflexivity).
  destruct (history_capped w Hreach) as (Hcap & Hkeep & _).
  split; [exact Hcap|].
  split; [reflexivity|].
  destruct (Hkeep (entry 13)) as (_ & _ & Hfull).
  destruct (Hfull eq_refl) as [E _]. rewrite E. reflexivity.
Defined.

(** A request that the network drops, for an uploaded clip. *)
Example network_failure_run :
  let w' := snd (App.handleTranslate (browser (Ok tt) (Throw "Failed to fetch") true)
                                     (uploaded [entry 1])) in
  error w' = Some "Failed to fetch"%string /\
  results w' = None /\
  translationHistory w' = [entry 1] /\
  isProcessing w' = false /\
  last (extractionLog w') EmptyString = "10:00:10: log_error_prefix Failed to fetch"%string.
Proof. vm_compute. repeat split; reflexivity. Qed.

(** The same in record mode with a camera that cannot be restarted: the
    log keeps the message of the failure, the error shown is the camera's. *)
Example camera_refused_run :
  let w' := snd (App.handleTranslate (browser (Ok tt) (Throw "Failed to fetch") false)
                                     recorded) in
  error w' = Some cameraRefused /\
  results w' = None /\
  isProcessing w' = false /\
  last (extractionLog w') EmptyString = "10:00:04: log_error_prefix Failed to fetch"%string.
Proof. vm_compute. repeat split; reflexivity. Qed.

(** A translation that succeeds on a full history: the new record is first,
    the oldest entry is gone, the length stays 10, and the storage holds the
    same list. *)
Example eleventh_record_run :
  let w' := snd (App.handleTranslate (browser (Ok tt) (Ok translated) true)
                                     (uploaded (map entry [10; 9; 8; 7; 6; 5; 4; 3; 2; 1]))) in
  map HistoryRecord.id (translationHistory w')
    = [1735725600010; 10; 9; 8; 7; 6; 5; 4; 3; 2] /\
  storedHistory w' = StoredArray (translationHistory w') /\
  option_map Results.translation (results w') = Some (Some "Hallo Welt"%string) /\
  error w' = None.
Proof. vm_compute. repeat split; reflexivity. Qed.

(* ===================================================================== *)
(** * Further properties                                                  *)
(* ===================================================================== *)

Import Outcomes.

(** ** More on the normalizer *)

Lemma sampleIndex_step (N T i : Z) :
  1 < T < N -> 0 <= i -> sampleIndex N T i + 1 <= sampleIndex N T (i + 1).
Proof.
  intros HT Hi. unfold sampleIndex. rewrite Z.max_l by lia.
  replace ((i + 1) * (N - 1)) with (i * (N - 1) + (N - 1)) by lia.
  rewrite <- (Z_div_plus (i * (N - 1)) 1 (T - 1)) by lia.
  apply Z.div_le_mono; lia.
Qed.

Lemma sampleIndex_increasing (N T i j : Z) :
  0 < T < N -> 0 <= i -> i < j -> j < T -> sampleIndex N T i < sampleIndex N T j.
Proof.
  intros HT Hi Hij Hj.
  assert (1 < T < N) as HT' by lia.
  pose proof (sampleIndex_step N T i HT' Hi) as Hstep.
  assert (sampleIndex N T (i + 1) <= sampleIndex N T j); [|lia].
  unfold sampleIndex. apply Z.div_le_mono; [lia|].
  apply Z.mul_le_mono_nonneg_r; lia.
Qed.

Lemma counters_succ (i : Z) (n : nat) :
  counters i (Datatypes.S n) = i :: counters (i + 1) n.
Proof.
  unfold counters. simpl. rewrite Z.add_0_r. f_equal.
  rewrite <- seq_shift, map_map. apply map_ext. intros k. lia.
Qed.

Lemma counters_range (i : Z) (n : nat) (k : Z) :
  In k (counters i n) -> i <= k < i + Z.of_nat n.
Proof.
  unfold counters. intros H. apply in_map_iff in H as (m & <- & Hm).
  apply in_seq in Hm. lia.
Qed.

Lemma counters_sorted (f : Z -> Z) (n : nat) :
  forall i : Z,
    (forall a b, i <= a -> a < b -> b < i + Z.of_nat n -> f a < f b) ->
    StronglySorted Z.lt (map f (counters i n)).
Proof.
  induction n as [|n IH]; intros i Hf.
  - constructor.
  - rewrite counters_succ. simpl. constructor.
    + apply IH. intros a b Ha Hab Hb. apply Hf; lia.
    + apply Forall_forall. intros y Hy.
      apply in_map_iff in Hy as (k & <- & Hk).
      apply counters_range in Hk. apply Hf; lia.
Qed.

Lemma uniformTruncate_indices (raw : list jsval) (T : Z) :
  0 < T < len raw ->
  normalize raw T
  = map (get raw) (map (sampleIndex (len raw) T) (counters 0 (Z.to_nat T))).
Proof.
  intros H. rewrite normalize_longer, uniformTruncate_sampled by lia.
  unfold for_loop. rewrite iterate_push. simpl.
  rewrite Z.sub_0_r, map_map. reflexivity.
Qed.

(** X1. When it truncates, the normalizer returns a subsequence of its
    input: the frames at [T] source indices that lie inside the input and
    increase strictly, so the frames stay in their order and none is used
    twice. *)
Theorem truncation_is_subsequence (raw : list jsval) (T : Z) :
  0 < T < len raw ->
  exists indices : list Z,
    normalize raw T = map (get raw) indices /\
    length indices = Z.to_nat T /\
    Forall (fun k => 0 <= k < len raw) indices /\
    StronglySorted Z.lt indices.
Proof.
  intros H.
  exists (map (sampleIndex (len raw) T) (counters 0 (Z.to_nat T))).
  split; [now apply uniformTruncate_indices|].
  split; [now rewrite length_map, counters_length|].
  split.
  - apply Forall_forall. intros k Hk.
    apply in_map_iff in Hk as (i & <- & Hi).
    apply counters_range in Hi.
    apply sample_index_in_range; lia.
  - apply counters_sorted. intros a b Ha Hab Hb.
    apply sampleIndex_increasing; lia.
Qed.

Lemma truncation_is_subsequence_witness :
  exists indices : list Z,
    normalize (map mark (seq 0 7)) 3 = map (get (map mark (seq 0 7))) indices /\
    length indices = Z.to_nat 3 /\
    Forall (fun k => 0 <= k < len (map mark (seq 0 7))) indices /\
    StronglySorted Z.lt indices.
Proof. apply truncation_is_subsequence. unfold len. simpl. lia. Defined.

Lemma normalize_elements (raw : list jsval) (T : Z) (frame : jsval) :
  In frame (normalize raw T) -> In frame raw \/ (frame = padFrame /\ len raw < T).
Proof.
  destruct (Z.lt_trichotomy (len raw) T) as [Hlt|[Heq|Hgt]].
  - rewrite normalize_shorter by assumption. intros Hin.
    apply in_app_or in Hin as [Hin|Hin]; [now left|].
    apply repeat_spec in Hin. now right.
  - rewrite normalize_exact by assumption. now left.
  - destruct (Z.le_gt_cases T 0) as [Hneg|Hpos].
    + rewrite normalize_longer, uniformTruncate_nonpositive by lia. intros [].
    + rewrite uniformTruncate_indices by lia. intros Hin. left.
      apply in_map_iff in Hin as (k & <- & Hk).
      apply in_map_iff in Hk as (i & <- & Hi).
      apply counters_range in Hi.
      eapply nth_error_In. apply get_in_range.
      apply sample_index_in_range; lia.
Qed.

(** X2. Every frame of the normalized sequence is a frame of the input or,
    only when the input is shorter than the target, the pad frame: the
    normalizer blends nothing and reads nothing outside the input, so
    whatever holds of every input frame and of the pad frame holds of every
    output frame. *)
Theorem normalize_keeps_frames (raw : list jsval) (T : Z) :
  (forall frame : jsval,
      In frame (normalize raw T) ->
      In frame raw \/ (frame = padFrame /\ len raw < T)) /\
  (forall P : jsval -> Prop,
      Forall P raw -> P padFrame -> Forall P (normalize raw T)).
Proof.
  split; [apply normalize_elements|].
  intros P Hraw Hpad. apply Forall_forall. intros frame Hin.
  apply normalize_elements in Hin as [Hin|[-> _]]; [|exact Hpad].
  rewrite Forall_forall in Hraw. now apply Hraw.
Qed.

(** ** More on the frame encoder *)

Lemma iterateE_throws {S : Type} (body : Z -> S -> outcome S) (e : string) (m : nat) :
  forall (n : nat) (off : Z) (s : S),
    (m < n)%nat ->
    (forall (k : nat) (s : S), (k < m)%nat -> exists s', body (off + Z.of_nat k) s = Ok s') ->
    (forall s : S, body (off + Z.of_nat m) s = Throw e) ->
    iterateE n off body s = Throw e.
Proof.
  induction m as [|m IH]; intros [|n] off s Hn Hok Hthrow; try lia; simpl.
  - specialize (Hthrow s). rewrite Z.add_0_r in Hthrow. now rewrite Hthrow.
  - destruct (Hok 0%nat s) as [s' E]; [lia|].
    rewrite Z.add_0_r in E. rewrite E.
    apply IH; [lia| |].
    + intros k t Hk. destruct (Hok (Datatypes.S k) t) as [t' Et]; [lia|].
      exists t'. rewrite <- Et. f_equal. lia.
    + intros t. rewrite <- (Hthrow t). f_equal. lia.
Qed.

Lemma assignHand_returns (lms : list (list Landmark)) (hs : list Handedness)
    (k : nat) (hands : list jsval * list jsval) :
  (k < length hs)%nat -> exists hands', assignHand lms hs (0 + Z.of_nat k) hands = Ok hands'.
Proof.
  intros Hk. unfold assignHand. simpl. rewrite Nat2Z.id.
  destruct (nth_error hs k) as [h|] eqn:E.
  - destruct (String.eqb (label h) "Left"); [eauto|].
    destruct (String.eqb (label h) "Right"); eauto.
  - apply nth_error_None in E. lia.
Qed.

(** X3. On a result with both arrays, the encoder throws exactly when
    [multiHandedness] has fewer entries than [multiHandLandmarks], and then
    it throws the [TypeError] of reading [label] of [undefined]; otherwise it
    returns a frame. *)
Theorem encoder_throws_iff (lms : list (list Landmark)) (hs : list Handedness) :
  let handsResults := {| multiHandLandmarks := Some lms; multiHandedness := Some hs |} in
  (extractTwoHandLandmarks handsResults = Throw TypeError <-> (length hs < length lms)%nat) /\
  ((length lms <= length hs)%nat <-> exists frame, extractTwoHandLandmarks handsResults = Ok frame).
Proof.
  assert ((length hs < length lms)%nat ->
          extractTwoHandLandmarks
            {| multiHandLandmarks := Some lms; multiHandedness := Some hs |}
          = Throw TypeError) as Hthrow.
  { intros Hlt. unfold extractTwoHandLandmarks, for_loopE. simpl.
    rewrite (iterateE_throws (assignHand lms hs) TypeError (length hs)).
    - reflexivity.
    - unfold len. lia.
    - intros k s Hk. now apply assignHand_returns.
    - intros s. unfold assignHand. simpl. rewrite Nat2Z.id.
      now rewrite (proj2 (nth_error_None hs (length hs)) (le_n _)). }
  cbv zeta. split; split.
  - intros E. destruct (Nat.lt_ge_cases (length hs) (length lms)) as [H|H]; [exact H|].
    rewrite extractTwoHandLandmarks_slots in E by assumption. discriminate.
  - exact Hthrow.
  - intros H. eexists. now apply extractTwoHandLandmarks_slots.
  - intros [frame E].
    destruct (Nat.lt_ge_cases (length hs) (length lms)) as [H|H]; [|exact H].
    rewrite Hthrow in E by assumption. discriminate.
Qed.

Lemma detectedHands_resultOf (hands : list (string * list Landmark)) :
  detectedHands (map snd hands) (map (fun h => {| label := fst h |}) hands) = hands.
Proof.
  unfold detectedHands. rewrite map_map. simpl.
  induction hands as [|[lbl pts] hands IH]; simpl; [reflexivity|now rewrite IH].
Qed.

Lemma extractTwoHandLandmarks_resultOf (hands : list (string * list Landmark)) :
  extractTwoHandLandmarks (resultOf hands)
  = Ok (Arr (slot "Left" hands ++ slot "Right" hands)).
Proof.
  unfold resultOf. rewrite extractTwoHandLandmarks_slots.
  - now rewrite detectedHands_resultOf.
  - now rewrite !length_map.
Qed.

Lemma find_filter {A : Type} (p q : A -> bool) (l : list A) :
  (forall a, p a = true -> q a = true) -> find p (filter q l) = find p l.
Proof.
  intros Hpq. induction l as [|a l IH]; simpl; [reflexivity|].
  destruct (q a) eqn:Eq; simpl.
  - now rewrite IH.
  - destruct (p a) eqn:Ep; [|exact IH].
    apply Hpq in Ep. congruence.
Qed.

Lemma slot_filter (lbl : string) (hands : list (string * list Landmark)) :
  slotLabel lbl = true ->
  slot lbl (filter (fun h => slotLabel (fst h)) hands) = slot lbl hands.
Proof.
  intros Hl. unfold slot, lastLabelled.
  rewrite <- filter_rev, find_filter; [reflexivity|].
  intros [l pts]. simpl. intros E. apply String.eqb_eq in E. now subst.
Qed.

(** X4. A detected hand whose label is neither [Left] nor [Right] never
    shows in the frame: the encoder returns the same frame with and without
    such hands. *)
Theorem unlabelled_hands_ignored (hands : list (string * list Landmark)) :
  extractTwoHandLandmarks (resultOf hands)
  = extractTwoHandLandmarks (resultOf (filter (fun h => slotLabel (fst h)) hands)).
Proof.
  rewrite !extractTwoHandLandmarks_resultOf.
  now rewrite !slot_filter.
Qed.

Lemma frameOfNumbers_encoded (handsResults : HandsResults) (frame : jsval) :
  wellFormed handsResults ->
  extractTwoHandLandmarks handsResults = Ok frame -> frameOfNumbers frame.
Proof.
  intros Hw Hf.
  assert (exists L R : list jsval,
             frame = Arr (L ++ R) /\ handShaped L /\ handShaped R)
    as (L & R & -> & [HL1 HL2] & [HR1 HR2]).
  { assert (handShaped emptyHand) as H0
      by (split; [reflexivity|apply zeroPoints_triples]).
    unfold extractTwoHandLandmarks in Hf.
    destruct handsResults as [[lms|] [hs|]]; simpl in Hf;
      try (injection Hf as <-; now exists emptyHand, emptyHand).
    destruct (for_loopE _ _ _ _) as [[L R]|e] eqn:E; [|discriminate].
    simpl in Hf. injection Hf as <-.
    exists L, R. split; [reflexivity|].
    unfold for_loopE in E.
    apply (iterateE_invariant
             (fun hands => handShaped (fst hands) /\ handShaped (snd hands))) in E.
    - exact E.
    - now split.
    - intros k s s' Hk. apply assignHand_handShaped.
      + now apply Hw.
      + unfold len in *. lia. }
  destruct (flat_triples (L ++ R)) as (values & Hc & Hlen).
  { apply Forall_app. now split. }
  exists values. split; [exact Hc|].
  rewrite Hlen, length_app, HL1, HR1. reflexivity.
Qed.

Lemma frameOfNumbers_padFrame : frameOfNumbers padFrame.
Proof. exists (repeat (Num (-10)%float) 126). split; reflexivity. Qed.

(** ** Values returned by handlers *)

Import Values.

Lemma returns_ret {A : Type} (a : A) (V : A -> Prop) : V a -> returns (ret a) V.
Proof. intros H w w' b [= <- _]. exact H. Qed.

Lemma returns_lift {A : Type} (o : outcome A) (V : A -> Prop) :
  (forall a, o = Ok a -> V a) -> returns (lift o) V.
Proof. intros H w w' a [= E _]. now apply H. Qed.

Lemma returns_bind {A B : Type} (m : M A) (k : A -> M B) (U : A -> Prop) (V : B -> Prop) :
  returns m U -> (forall a, U a -> returns (k a) V) -> returns (bindM m k) V.
Proof.
  intros Hm Hk w w' b. unfold bindM.
  destruct (m w) as [[a|e] w1] eqn:E; [|discriminate].
  intros Hb. exact (Hk a (Hm w w1 a E) w1 w' b Hb).
Qed.

Lemma returns_any {A : Type} (m : M A) : returns m (fun _ => True).
Proof. intros w w' a _. exact I. Qed.

(** A step whose value is not looked at. *)
Lemma returns_then {A B : Type} (m : M A) (k : A -> M B) (V : B -> Prop) :
  (forall a, returns (k a) V) -> returns (bindM m k) V.
Proof. intros Hk. apply (returns_bind m k (fun _ => True)); [apply returns_any|auto]. Qed.

Lemma returns_tryCatch {A : Type} (body : M A) (handler : string -> M A) (V : A -> Prop) :
  returns body V -> (forall e, returns (handler e) V) -> returns (tryCatch body handler) V.
Proof.
  intros Hb Hh w w' a. unfold tryCatch.
  destruct (body w) as [[b|e] w1] eqn:E.
  - intros [= <- <-]. exact (Hb w w1 b E).
  - apply Hh.
Qed.

Lemma returns_throw {A : Type} (e : string) (V : A -> Prop) : returns (@throw A e) V.
Proof. intros w w' a. discriminate. Qed.

Lemma returns_iterateM {S : Type} (body : Z -> S -> M S) (I : S -> Prop) (n : nat) :
  (forall i s, I s -> returns (body i s) I) ->
  forall i s, I s -> returns (iterateM n i body s) I.
Proof.
  intros Hbody. induction n as [|n IH]; intros i s Hs; simpl.
  - now apply returns_ret.
  - apply (returns_bind _ _ I); [now apply Hbody|]. intros s' Hs'. now apply IH.
Qed.

Lemma mapE_length {A B : Type} (f : A -> outcome B) (l : list A) :
  forall bs, mapE f l = Ok bs -> length bs = length l.
Proof.
  induction l as [|a l IH]; simpl; intros bs.
  - now intros [= <-].
  - destruct (f a); [|discriminate].
    destruct (mapE f l) as [bs'|]; [|discriminate].
    intros [= <-]. simpl. f_equal. now apply IH.
Qed.

Lemma flat_frameOfNumbers (frame : jsval) :
  frameOfNumbers frame -> exists row, flat frame = Ok row /\ rowOfNumbers row.
Proof.
  intros (values & Hc & Hlen). unfold components in Hc.
  destruct (flat frame) as [row|]; [|discriminate].
  destruct (forallb is_num row) eqn:E; [|discriminate].
  injection Hc as <-. exists row. now repeat split.
Qed.

Lemma mapE_flat_rows (frames : list jsval) :
  Forall frameOfNumbers frames ->
  exists rows, mapE flat frames = Ok rows /\ Forall rowOfNumbers rows.
Proof.
  induction 1 as [|frame frames Hf _ (rows & E & Hrows)]; simpl.
  - now exists [].
  - destruct (flat_frameOfNumbers frame Hf) as (row & -> & Hrow).
    rewrite E. exists (row :: rows). split; [reflexivity|now constructor].
Qed.

(** The rows of a normalized sequence of frames. *)
Lemma normalized_rows (frames : list jsval) (rows : list (list jsval)) :
  mapE flat (normalize frames MAX_SEQ_LEN) = Ok rows ->
  length rows = 190%nat /\ (Forall frameOfNumbers frames -> Forall rowOfNumbers rows).
Proof.
  intros E. split.
  - rewrite (mapE_length _ _ _ E).
    pose proof (normalize_len frames MAX_SEQ_LEN) as H.
    unfold len, MAX_SEQ_LEN in *. lia.
  - intros Hf.
    destruct (mapE_flat_rows (normalize frames MAX_SEQ_LEN)) as (rows' & E' & H').
    + apply Forall_forall. intros frame Hin.
      apply normalize_elements in Hin as [Hin|[-> _]].
      * rewrite Forall_forall in Hf. now apply Hf.
      * apply frameOfNumbers_padFrame.
    + congruence.
Qed.

(** Steps through a handler whose values are not looked at. *)
Ltac skip_steps :=
  repeat first
    [ apply returns_then; intros ?
    | match goal with
      | |- returns (if ?b then _ else _) _ => destruct b
      end ].

Lemma push_frames (frames : list jsval) (frame : jsval) :
  Forall frameOfNumbers frames -> frameOfNumbers frame ->
  Forall frameOfNumbers (push frames frame).
Proof. intros Hf H. apply Forall_app. split; [exact Hf|now constructor]. Qed.

Lemma extractLandmarksFromVideo_rows (env : Env) :
  returns (App.extractLandmarksFromVideo env)
          (fun rows =>
             length rows = 190%nat /\
             ((forall (i : Z) (r : HandsResults), hands_send env i = Ok r -> wellFormed r) ->
              Forall rowOfNumbers rows)).
Proof.
  unfold App.extractLandmarksFromVideo.
  apply returns_tryCatch; [|intros; apply returns_throw].
  cbv zeta. do 6 (apply returns_then; intros ?).
  apply (returns_bind _ _
           (fun st =>
              (forall (i : Z) (r : HandsResults), hands_send env i = Ok r -> wellFormed r) ->
              Forall frameOfNumbers (landmarksList st))).
  - apply returns_iterateM; [|intros _; constructor].
    intros i st Hst.
    apply (returns_bind _ _ (fun r => hands_send env i = Ok r));
      [now apply returns_lift|intros r Hr].
    unfold onResults.
    apply (returns_bind _ _ (fun f => extractTwoHandLandmarks r = Ok f));
      [now apply returns_lift|intros f Hf].
    cbv zeta. do 2 (apply returns_then; intros ?).
    apply returns_ret. simpl. intros H. apply push_frames; [now apply Hst|].
    apply (frameOfNumbers_encoded r); [now apply (H i)|exact Hf].
  - intros st Hst. do 3 (apply returns_then; intros ?).
    apply (returns_bind _ _
             (fun rows => mapE flat (normalize (landmarksList st) MAX_SEQ_LEN) = Ok rows));
      [now apply returns_lift|intros rows Hrows].
    apply returns_then; intros ?. apply returns_ret.
    destruct (normalized_rows _ _ Hrows) as [Hlen Hnum]. split; auto.
Qed.

Lemma extractLandmarksFromVideo_rows_000 (env : Env) :
  returns (Part000.extractLandmarksFromVideo env)
          (fun result =>
             length (fst result) = 190%nat /\
             ((forall (i : Z) (r : HandsResults), hands_send env i = Ok r -> wellFormed r) ->
              Forall rowOfNumbers (fst result))).
Proof.
  unfold Part000.extractLandmarksFromVideo.
  apply returns_tryCatch; [|intros; apply returns_throw].
  cbv zeta. do 6 (apply returns_then; intros ?).
  apply (returns_bind _ _
           (fun frames =>
              (forall (i : Z) (r : HandsResults), hands_send env i = Ok r -> wellFormed r) ->
              Forall frameOfNumbers frames)).
  - apply returns_iterateM; [|intros _; constructor].
    intros i frames Hframes.
    apply (returns_bind _ _ (fun r => hands_send env i = Ok r));
      [now apply returns_lift|intros r Hr].
    apply (returns_bind _ _ (fun f => extractTwoHandLandmarks r = Ok f));
      [now apply returns_lift|intros f Hf].
    apply returns_ret. intros H. apply push_frames; [now apply Hframes|].
    apply (frameOfNumbers_encoded r); [now apply (H i)|exact Hf].
  - intros frames Hframes. do 3 (apply returns_then; intros ?).
    apply (returns_bind _ _
             (fun rows => mapE flat (normalize frames MAX_SEQ_LEN) = Ok rows));
      [now apply returns_lift|intros rows Hrows].
    apply returns_then; intros ?. apply returns_ret.
    destruct (normalized_rows _ _ Hrows) as [Hlen Hnum]. split; auto.
Qed.

(** X5. Whenever the batch extractor returns, in App.jsx and in part_000, it
    returns exactly 190 rows; and when every detection result it was given
    has 21 keypoints per hand, every row is 126 numbers. *)
Theorem batch_extraction_rows (env : Env) :
  let detectorWellFormed :=
    forall (i : Z) (r : HandsResults), hands_send env i = Ok r -> wellFormed r in
  returns (App.extractLandmarksFromVideo env)
          (fun rows => length rows = 190%nat /\
                       (detectorWellFormed -> Forall rowOfNumbers rows)) /\
  returns (Part000.extractLandmarksFromVideo env)
          (fun result => length (fst result) = 190%nat /\
                         (detectorWellFormed -> Forall rowOfNumbers (fst result))).
Proof.
  split; [apply extractLandmarksFromVideo_rows|apply extractLandmarksFromVideo_rows_000].
Qed.

(** ** The live branch *)

Lemma useRealtimeLandmarks_run (env : Env) (realtimeLandmarks0 : list jsval) (w : World) :
  fst (useRealtimeLandmarks env realtimeLandmarks0 w)
  = mapE flat (fst (normalizeLive realtimeLandmarks0 MAX_SEQ_LEN)) /\
  realtimeLandmarks (snd (useRealtimeLandmarks env realtimeLandmarks0 w))
  = snd (normalizeLive realtimeLandmarks0 MAX_SEQ_LEN).
Proof.
  unfold useRealtimeLandmarks.
  destruct (normalizeLive realtimeLandmarks0 MAX_SEQ_LEN) as [landmarksList current].
  cbn [fst snd].
  destruct (len realtimeLandmarks0 >? MAX_SEQ_LEN);
    [|destruct (len realtimeLandmarks0 <? MAX_SEQ_LEN)];
    unfold bindM, addLog, stamped, now, readClock, appendLog, modify, lift, ret,
      setProgress; cbn;
    destruct (mapE flat landmarksList); split; reflexivity.
Qed.

(** X6. The live branch returns the flattened normalized accumulator: it
    fails only if flattening a frame fails, and on an accumulator of
    encoder frames it returns exactly 190 rows of 126 numbers. *)
Theorem live_extraction_rows (env : Env) (realtimeLandmarks0 : list jsval) (w : World) :
  fst (useRealtimeLandmarks env realtimeLandmarks0 w)
  = mapE flat (normalize realtimeLandmarks0 MAX_SEQ_LEN) /\
  (Forall frameOfNumbers realtimeLandmarks0 ->
   exists rows : list (list jsval),
     fst (useRealtimeLandmarks env realtimeLandmarks0 w) = Ok rows /\
     length rows = 190%nat /\ Forall rowOfNumbers rows).
Proof.
  destruct (useRealtimeLandmarks_run env realtimeLandmarks0 w) as [E _].
  rewrite normalizeLive_normalize in E. split; [exact E|].
  intros Hf. rewrite E.
  destruct (mapE_flat_rows (normalize realtimeLandmarks0 MAX_SEQ_LEN)) as (rows & Er & _).
  - apply Forall_forall. intros frame Hin.
    apply normalize_elements in Hin as [Hin|[-> _]].
    + rewrite Forall_forall in Hf. now apply Hf.
    + apply frameOfNumbers_padFrame.
  - exists rows. split; [exact Er|].
    destruct (normalized_rows _ _ Er) as [Hlen Hnum]. split; auto.
Qed.

Lemma normalizeLive_current (realtimeLandmarks0 : list jsval) (T : Z) :
  snd (normalizeLive realtimeLandmarks0 T)
  = if len realtimeLandmarks0 <? T then normalize realtimeLandmarks0 T
    else realtimeLandmarks0.
Proof.
  unfold normalizeLive, normalize.
  destruct (Z.gtb_spec (len realtimeLandmarks0) T) as [Hgt|Hle].
  - destruct (Z.ltb_spec (len realtimeLandmarks0) T); [lia|reflexivity].
  - destruct (len realtimeLandmarks0 <? T); reflexivity.
Qed.

Lemma normalizeLive_again (realtimeLandmarks0 : list jsval) (T : Z) :
  fst (normalizeLive (snd (normalizeLive realtimeLandmarks0 T)) T)
  = fst (normalizeLive realtimeLandmarks0 T).
Proof.
  rewrite !normalizeLive_normalize, normalizeLive_current.
  destruct (Z.ltb_spec (len realtimeLandmarks0) T) as [Hlt|Hge]; [|reflexivity].
  apply normalize_exact. apply normalize_len. pose proof (len_nonneg realtimeLandmarks0). lia.
Qed.

(** X7. The live branch pads the accumulator itself: after it, the
    accumulator holds the padded sequence when it was shorter than 190
    frames and is as before otherwise (truncation works on a copy).  Either
    way a second run on the accumulator it left, in any environment,
    returns the same rows. *)
Theorem live_extraction_accumulator (env env' : Env) (realtimeLandmarks0 : list jsval)
    (w w' : World) :
  let w1 := snd (useRealtimeLandmarks env realtimeLandmarks0 w) in
  realtimeLandmarks w1
  = (if len realtimeLandmarks0 <? MAX_SEQ_LEN
     then realtimeLandmarks0
          ++ repeat padFrame (Z.to_nat (MAX_SEQ_LEN - len realtimeLandmarks0))
     else realtimeLandmarks0) /\
  fst (useRealtimeLandmarks env' (realtimeLandmarks w1) w')
  = fst (useRealtimeLandmarks env realtimeLandmarks0 w).
Proof.
  cbv zeta.
  destruct (useRealtimeLandmarks_run env realtimeLandmarks0 w) as [E1 E2].
  split.
  - rewrite E2, normalizeLive_current.
    destruct (Z.ltb_spec (len realtimeLandmarks0) MAX_SEQ_LEN) as [Hlt|Hge];
      [now apply normalize_shorter|reflexivity].
  - destruct (useRealtimeLandmarks_run env' (realtimeLandmarks
               (snd (useRealtimeLandmarks env realtimeLandmarks0 w))) w') as [E3 _].
    rewrite E3, E1, E2. now rewrite normalizeLive_again.
Qed.

(** ** How [handleTranslate] ends *)

Import Handled.

Lemma failed_returns (env : Env) (message : string) (w : World) :
  fst (failed env message w) = Ok tt.
Proof. reflexivity. Qed.

Lemma settled_state (env : Env) (c w2 : World) :
  let w' := snd (settled env c w2) in
  fst (settled env c w2) = Ok tt /\
  isProcessing w' = false /\
  currentStage w' = EmptyString /\
  isCameraActive w' =
    match inputMode c with
    | record => if getUserMedia env then true else isCameraActive w2
    | upload => isCameraActive w2
    end /\
  error w' =
    match inputMode c, getUserMedia env with
    | record, false => Some cameraRefused
    | _, _ => error w2
    end /\
  requests w' = requests w2 /\
  results w' = results w2 /\
  progress w' = progress w2 /\
  extractionLog w' = extractionLog w2 /\
  translationHistory w' = translationHistory w2 /\
  realtimeLandmarks w' = realtimeLandmarks w2.
Proof.
  unfold settled, startCamera.
  destruct (inputMode c), (getUserMedia env); cbn; repeat split; reflexivity.
Qed.

(** The [try] statement of [handleTranslate] comes to its [finally] block,
    on the world its [try] block returned with or its [catch] block left. *)
Lemma tryCatchFinally_settled (env : Env) (c : World) (body : M unit) (w0 : World) :
  exists w2 : World,
    tryCatchFinally body (failed env) (settled env c) w0 = settled env c w2 /\
    (body w0 = (Ok tt, w2) \/
     exists e w1, body w0 = (Throw e, w1) /\ w2 = snd (failed env e w1)).
Proof.
  unfold tryCatchFinally, tryCatch.
  destruct (body w0) as [[[]|e] w1] eqn:E.
  - exists w1. split; [reflexivity|now left].
  - exists (snd (failed env e w1)). split; [|right; now exists e, w1].
    pose proof (failed_returns env e w1) as Hf.
    destruct (failed env e w1) as [[[]|e'] w2]; [reflexivity|discriminate].
Qed.

Lemma starting_returns (c w : World) : fst (starting c w) = Ok tt.
Proof. unfold starting. now destruct (isCameraActive c). Qed.

Lemma translate_body (env : Env) (c w : World) (body : M unit) :
  (starting c ;; tryCatchFinally body (failed env) (settled env c)) w
  = tryCatchFinally body (failed env) (settled env c) (snd (starting c w)).
Proof.
  unfold bindM at 1. pose proof (starting_returns c w) as H.
  destruct (starting c w) as [[[]|e] w0]; [reflexivity|discriminate].
Qed.

(** X8. [handleTranslate] never throws, in App.jsx and in part_000: whatever
    the detector, the network, the camera and the storage do, every failure
    ends in its [catch] block or is ignored. *)
Theorem handleTranslate_returns (env : Env) (w : World) :
  fst (App.handleTranslate env w) = Ok tt /\
  fst (Part000.handleTranslate env w) = Ok tt.
Proof.
  split.
  - change (App.handleTranslate env w) with (App.translate env w w).
    unfold App.translate. destruct (file w); [|reflexivity].
    rewrite translate_body.
    destruct (tryCatchFinally_settled env w (App.translating env w) (snd (starting w w)))
      as (w2 & -> & _).
    apply settled_state.
  - change (Part000.handleTranslate env w) with (Part000.translate env w w).
    unfold Part000.translate. destruct (file w); [|reflexivity].
    rewrite translate_body.
    destruct (tryCatchFinally_settled env w (Part000.translating env w)
                (snd (starting w w))) as (w2 & -> & _).
    apply settled_state.
Qed.

#[local] Instance sameCamera_preorder : PreOrder sameCamera.
Proof.
  split.
  - intros w. reflexivity.
  - intros a b c H G. unfold sameCamera in *. congruence.
Qed.

#[local] Instance sameRequests_preorder : PreOrder sameRequests.
Proof.
  split.
  - intros w. reflexivity.
  - intros a b c H G. unfold sameRequests in *. congruence.
Qed.

(** A write that leaves the camera flag, or the requests, alone. *)
Ltac same :=
  intros;
  first [ reflexivity
        | unfold sameCamera, sameRequests; cbn;
          repeat match goal with |- context [if ?b then _ else _] => destruct b end;
          reflexivity ].







(** ** The requests of [handleTranslate] *)

Lemma sentAtMostOne_requests (a a' b b' : World) :
  requests a' = requests a -> requests b' = requests b ->
  sentAtMostOne a b -> sentAtMostOne a' b'.
Proof.
  intros Ea Eb [H|(r & H & Hr)]; [left|right; exists r; split; [|exact Hr]]; congruence.
Qed.

(** After steps that send nothing, a step that sends at most one request. *)
Lemma sentAtMostOne_after {A B : Type} (m : M A) (k : A -> M B) (V : A -> Prop) :
  respects sameRequests m -> returns m V ->
  (forall a, V a -> forall w, sentAtMostOne w (snd (k a w))) ->
  forall w, sentAtMostOne w (snd (bindM m k w)).
Proof.
  intros Hq Hv Hk w. unfold bindM. specialize (Hq w).
  destruct (m w) as [[a|e] w1] eqn:E; simpl in Hq.
  - apply (sentAtMostOne_requests w1 w _ _ (eq_sym Hq) eq_refl).
    apply Hk. exact (Hv w w1 a E).
  - left. exact Hq.
Qed.

(** The request, then steps that send nothing. *)
Lemma sentAtMostOne_doFetch {B : Type} (env : Env) (request : Request.t)
    (k : Response.t -> M B) :
  translationRequest request ->
  (forall response, respects sameRequests (k response)) ->
  forall w, sentAtMostOne w (snd ((response <- doFetch env request ;; k response) w)).
Proof.
  intros Hr Hk w. right. exists request. split; [|exact Hr].
  unfold doFetch, bindM, modify, lift. simpl.
  destruct (fetch env request) as [response|e]; [|reflexivity].
  specialize (Hk response (set_requests (requests w ++ [request]) w)).
  exact Hk.
Qed.

Lemma useRealtimeLandmarks_190 (env : Env) (realtimeLandmarks0 : list jsval) :
  returns (useRealtimeLandmarks env realtimeLandmarks0)
          (fun rows => length rows = 190%nat).
Proof.
  intros w w' rows E.
  destruct (useRealtimeLandmarks_run env realtimeLandmarks0 w) as [H _].
  rewrite E, normalizeLive_normalize in H. simpl in H. symmetry in H.
  now apply normalized_rows in H.
Qed.

Lemma requesting_sentAtMostOne (env : Env) (c : World) :
  forall w, sentAtMostOne w (snd (App.requesting env c w)).
Proof.
  unfold App.requesting.
  assert (forall message, respects sameRequests (addLog env message)) as Hlog
    by (intros; apply respects_addLog; try typeclasses eauto; same).
  assert (respects sameRequests (App.extractLandmarksFromVideo env)) as Hbatch
    by (apply respects_extractLandmarksFromVideo; try typeclasses eauto; same).
  assert (returns (flatLandmarks <- App.extractLandmarksFromVideo env ;;
                   setProgress 50 ;; ret flatLandmarks)
                  (fun rows => length rows = 190%nat)) as Hrows.
  { apply (returns_bind _ _ (fun rows => length rows = 190%nat)).
    - intros w w' rows E. now apply (extractLandmarksFromVideo_rows env w w' rows E).
    - intros rows H. apply returns_then. intros _. now apply returns_ret. }
  apply (sentAtMostOne_after _ _ (fun _ => True));
    [unfold setCurrentStage; respect|apply returns_any|intros _ _].
  apply (sentAtMostOne_after _ _ (fun _ => True));
    [unfold stamped, now; respect|apply returns_any|intros entry _].
  apply (sentAtMostOne_after _ _ (fun _ => True));
    [unfold setExtractionLog; respect|apply returns_any|intros _ _].
  apply (sentAtMostOne_after _ _ (fun _ => True));
    [respect|apply returns_any|intros realtimeLandmarks0 _].
  apply (sentAtMostOne_after _ _ (fun rows => length rows = 190%nat)).
  - destruct (inputMode c); [|destruct (len realtimeLandmarks0 >? 0)].
    + unfold setProgress. respect.
    + apply respects_useRealtimeLandmarks; try typeclasses eauto; same.
    + unfold setProgress. respect.
  - destruct (inputMode c); [exact Hrows|].
    destruct (len realtimeLandmarks0 >? 0); [apply useRealtimeLandmarks_190|exact Hrows].
  - intros rows Hlen.
    apply (sentAtMostOne_after _ _ (fun _ => True));
      [unfold setCurrentStage; respect|apply returns_any|intros _ _].
    apply (sentAtMostOne_after _ _ (fun _ => True));
      [apply Hlog|apply returns_any|intros _ _].
    apply sentAtMostOne_doFetch; [now split|].
    intros response. apply respects_bind; [typeclasses eauto| |intros _; respect].
    destruct (negb (Response.ok response)); [|respect].
    apply respects_rejectResponse. typeclasses eauto.
Qed.

Lemma requesting_sentAtMostOne_000 (env : Env) (c : World) :
  forall w, sentAtMostOne w (snd (Part000.requesting env c w)).
Proof.
  unfold Part000.requesting.
  assert (forall message, respects sameRequests (addLog env message)) as Hlog
    by (intros; apply respects_addLog; try typeclasses eauto; same).
  apply (sentAtMostOne_after _ _ (fun _ => True));
    [unfold setCurrentStage; respect|apply returns_any|intros _ _].
  apply (sentAtMostOne_after _ _ (fun _ => True));
    [apply Hlog|apply returns_any|intros _ _].
  apply (sentAtMostOne_after _ _ (fun result => length (fst result) = 190%nat)).
  - apply respects_extractLandmarksFromVideo_000; try typeclasses eauto; same.
  - intros w w' result E. now apply (extractLandmarksFromVideo_rows_000 env w w' result E).
  - intros result Hlen. cbv zeta.
    apply (sentAtMostOne_after _ _ (fun _ => True));
      [unfold setExtractionLog; respect|apply returns_any|intros _ _].
    apply (sentAtMostOne_after _ _ (fun _ => True));
      [unfold setProgress; respect|apply returns_any|intros _ _].
    apply (sentAtMostOne_after _ _ (fun _ => True));
      [unfold setCurrentStage; respect|apply returns_any|intros _ _].
    apply (sentAtMostOne_after _ _ (fun _ => True));
      [apply Hlog|apply returns_any|intros _ _].
    apply sentAtMostOne_doFetch; [now split|].
    intros response. apply respects_bind; [typeclasses eauto| |intros _; respect].
    destruct (negb (Response.ok response)); [|respect].
    apply respects_rejectResponse. typeclasses eauto.
Qed.

Lemma completing_sameRequests (env : Env) (c : World) (data : option Data.t) :
  respects sameRequests (App.completing env c data) /\
  respects sameRequests (Part000.completing env c data).
Proof. split; apply respects_tail; try typeclasses eauto; same. Qed.

Lemma translate_sentAtMostOne (env : Env) (c : World) (requesting : M (option Data.t))
    (completing : option Data.t -> M unit) (w : World) :
  (forall w, sentAtMostOne w (snd (requesting w))) ->
  (forall data, respects sameRequests (completing data)) ->
  sentAtMostOne w
    (snd ((starting c ;;
           tryCatchFinally (data <- requesting ;; completing data)
                           (failed env) (settled env c)) w)).
Proof.
  intros Hreq Hcomp. rewrite translate_body.
  assert (requests (snd (starting c w)) = requests w) as Hs
    by (unfold starting; now destruct (isCameraActive c)).
  assert (forall w0, sentAtMostOne w0 (snd ((data <- requesting ;; completing data) w0)))
    as Hbody.
  { intros w0. unfold bindM. specialize (Hreq w0).
    destruct (requesting w0) as [[data|e] w1]; [|exact Hreq].
    apply (sentAtMostOne_requests w0 w0 w1 _ eq_refl); [|exact Hreq].
    exact (Hcomp data w1). }
  destruct (tryCatchFinally_settled env c (data <- requesting ;; completing data)
              (snd (starting c w))) as (w2 & -> & Hw2).
  destruct (settled_state env c w2) as (_ & _ & _ & _ & _ & Hr & _).
  apply (sentAtMostOne_requests (snd (starting c w)) w w2 _ (eq_sym Hs) Hr).
  specialize (Hbody (snd (starting c w))).
  destruct Hw2 as [E|(e & w1 & E & ->)]; rewrite E in Hbody; exact Hbody.
Qed.

(** X10. A call of [handleTranslate] (App.jsx and part_000) sends at most
    one request, never a second one after a failure; a request it sends goes
    to the backend URL and carries exactly 190 rows; and without a clip it
    sends none. *)
Theorem handleTranslate_requests (env : Env) (w : World) :
  sentAtMostOne w (snd (App.handleTranslate env w)) /\
  sentAtMostOne w (snd (Part000.handleTranslate env w)) /\
  (file w = None ->
   requests (snd (App.handleTranslate env w)) = requests w /\
   requests (snd (Part000.handleTranslate env w)) = requests w).
Proof.
  split; [|split].
  - change (App.handleTranslate env w) with (App.translate env w w).
    unfold App.translate. destruct (file w); [|now left].
    apply translate_sentAtMostOne.
    + apply requesting_sentAtMostOne.
    + intros data. apply completing_sameRequests.
  - change (Part000.handleTranslate env w) with (Part000.translate env w w).
    unfold Part000.translate. destruct (file w); [|now left].
    apply translate_sentAtMostOne.
    + apply requesting_sentAtMostOne_000.
    + intros data. apply completing_sameRequests.
  - intros Hfile.
    change (App.handleTranslate env w) with (App.translate env w w).
    change (Part000.handleTranslate env w) with (Part000.translate env w w).
    unfold App.translate, Part000.translate. rewrite Hfile. now split.
Qed.

(** ** A translation that succeeds *)

(** X11. When the request of [handleTranslate] (App.jsx) is answered with a
    body that has a [confidence], the handler ends with the results set
    from that body, the progress at 100, one entry for the completion
    appended to the log, and no error, except that in record mode a camera
    that cannot be restarted reports its error beside the results. *)
Theorem translation_success (env : Env) (w w1 : World) (data : Data.t)
    (shown : Results.t) :
  file w <> None ->
  App.requesting env w (snd (starting w w)) = (Ok (Some data), w1) ->
  resultsOf env (selectedMethod w) (Some data) = Ok shown ->
  let w' := snd (App.handleTranslate env w) in
  results w' = Some shown /\
  Results.gloss shown = Data.gloss data /\
  Results.translation shown = Data.translation data /\
  progress w' = 100 /\
  extractionLog w' =
    extractionLog w1
    ++ [(toLocaleTimeString env (Datatypes.S (Datatypes.S (clockReads w1))) ++ ": "
         ++ t env "log_translation_complete" [])%string] /\
  error w' = match inputMode w, getUserMedia env with
             | record, false => Some cameraRefused
             | _, _ => None
             end.
Proof.
  intros Hfile Hreq Hres.
  destruct (handleTranslate_answered env w w1 data shown Hfile Hreq Hres) as [E _].
  pose proof (requesting_unrecorded env w (snd (starting w w))) as (_ & Herr & _).
  rewrite Hreq in Herr. simpl in Herr.
  destruct (starting_state w w) as (_ & _ & Herr0 & _).
  rewrite Herr0 in Herr.
  cbv zeta. rewrite E.
  assert (Results.gloss shown = Data.gloss data /\
          Results.translation shown = Data.translation data) as [Hg Ht].
  { unfold resultsOf in Hres. destruct (Data.confidence data); [|discriminate].
    injection Hres as <-. now split. }
  destruct (settled_state env w (snd (App.completing env w (Some data) w1)))
    as (_ & _ & _ & _ & He & _ & Hr & Hp & Hl & _).
  rewrite Hr, Hp, Hl, He. clear He Hr Hp Hl E.
  unfold App.completing.
  unfold bindM at 1, setProgress, modify. unfold bindM at 1, lift. rewrite Hres.
  destruct (localStorage_setItem env) eqn:Hstore;
    unfold recordTranslation, prependToHistory; cbn; rewrite Hstore; cbn;
    repeat split; try assumption;
    destruct (inputMode w), (getUserMedia env); congruence.
Qed.

Lemma translation_success_witness :
  let env := browser (Ok tt) (Ok translated) false in
  let w' := snd (App.handleTranslate env recorded) in
  option_map Results.translation (results w') = Some (Some "Hallo Welt"%string) /\
  progress w' = 100 /\
  error w' = Some cameraRefused.
Proof.
  intros env.
  pose (data := {| Data.gloss := Some "HALLO WELT"%string;
                   Data.translation := Some "Hallo Welt"%string;
                   Data.confidence := Some {| overall := Some 0.5%float |};
                   Data.timing_total := Some 1.5%float;
                   Data.landmarks_shape := Some [190; 126] |}).
  pose (w1 := snd (App.requesting env recorded (snd (starting recorded recorded)))).
  assert (App.requesting env recorded (snd (starting recorded recorded))
          = (Ok (Some data), w1)) as Hreq by (vm_compute; reflexivity).
  assert (exists shown, resultsOf env (selectedMethod recorded) (Some data) = Ok shown)
    as [shown Hres] by (eexists; reflexivity).
  destruct (translation_success env recorded w1 data shown
              ltac:(discriminate) Hreq Hres) as (E1 & _ & E2 & E3 & _ & E4).
  cbv zeta. split; [|split; [exact E3|exact E4]].
  rewrite E1. cbn [option_map]. now rewrite E2.
Defined.

(** ** The live branch and the detector *)

Lemma bindM_ext {A B : Type} (m : M A) (k k' : A -> M B) (w : World) :
  (forall a w1, m w = (Ok a, w1) -> k a w1 = k' a w1) ->
  bindM m k w = bindM m k' w.
Proof.
  intros H. unfold bindM. destruct (m w) as [[a|e] w1]; [now apply H|reflexivity].
Qed.

Lemma requesting_live (env : Env) (c w0 : World) (initialize : outcome unit)
    (v : outcome Video.t) (send : Z -> outcome HandsResults) (rounded : Z -> Z -> Z) :
  inputMode c = record -> realtimeLandmarks w0 <> [] ->
  App.requesting (withDetector env initialize v send rounded) c w0
  = App.requesting env c w0.
Proof.
  intros Hmode Hframes. unfold App.requesting.
  apply bindM_ext. intros [] w1 [= <-].
  apply bindM_ext. intros entry w2 [= _ <-].
  apply bindM_ext. intros [] w3 [= <-].
  apply bindM_ext. intros frames w4 [= <- <-].
  cbn [realtimeLandmarks set_extractionLog set_currentStage set_clockReads].
  rewrite Hmode.
  assert ((len (realtimeLandmarks w0) >? 0) = true) as ->.
  { destruct (realtimeLandmarks w0); [contradiction|].
    unfold len. simpl. apply Z.gtb_lt. lia. }
  reflexivity.
Qed.

(** X12. In record mode with frames in the accumulator, [handleTranslate]
    (App.jsx) does not use the detector or the video: with any other
    detector, video and progress rounding it returns the same outcome and
    leaves the same world.  The clip is not extracted a second time. *)
Theorem live_path_ignores_detector (env : Env) (w : World) (initialize : outcome unit)
    (v : outcome Video.t) (send : Z -> outcome HandsResults) (rounded : Z -> Z -> Z) :
  inputMode w = record -> realtimeLandmarks w <> [] ->
  App.handleTranslate (withDetector env initialize v send rounded) w
  = App.handleTranslate env w.
Proof.
  intros Hmode Hframes.
  change (App.translate (withDetector env initialize v send rounded) w w
          = App.translate env w w).
  unfold App.translate. destruct (file w); [|reflexivity].
  rewrite !translate_body.
  assert (realtimeLandmarks (snd (starting w w)) <> []) as Hframes0
    by (unfold starting; now destruct (isCameraActive w)).
  unfold tryCatchFinally, tryCatch, App.translating, bindM.
  rewrite (requesting_live env w _ initialize v send rounded Hmode Hframes0).
  reflexivity.
Qed.

Lemma live_path_ignores_detector_witness :
  App.handleTranslate
    (withDetector (browser (Ok tt) (Ok translated) true)
       (Throw "Failed to load MediaPipe") (Throw "no video") (fun _ => Throw "closed")
       (fun _ _ => 0))
    recorded
  = App.handleTranslate (browser (Ok tt) (Ok translated) true) recorded.
Proof.
  apply live_path_ignores_detector; [reflexivity|discriminate].
Defined.

(** ** Deleting from the history and remounting *)

Lemma withoutRecord_In (recordId : Z) (history : list HistoryRecord.t) (r : HistoryRecord.t) :
  In r (withoutRecord recordId history) <-> In r history /\ HistoryRecord.id r <> recordId.
Proof.
  unfold withoutRecord. rewrite filter_In.
  destruct (Z.eqb_spec (HistoryRecord.id r) recordId); simpl; intuition congruence.
Qed.

Lemma withoutRecord_absent (recordId : Z) (history : list HistoryRecord.t) :
  Forall (fun r => HistoryRecord.id r <> recordId) history ->
  withoutRecord recordId history = history.
Proof.
  induction 1 as [|r history Hr _ IH]; simpl; [reflexivity|].
  destruct (Z.eqb_spec (HistoryRecord.id r) recordId); [contradiction|].
  simpl. now rewrite IH.
Qed.

Lemma deleteHistoryItem_history (env : Env) (recordId : Z) (w : World) :
  translationHistory (snd (deleteHistoryItem env recordId w))
  = withoutRecord recordId (translationHistory w) /\
  storedHistory (snd (deleteHistoryItem env recordId w))
  = (if localStorage_setItem env
     then StoredArray (withoutRecord recordId (translationHistory w))
     else storedHistory w).
Proof.
  unfold deleteHistoryItem, bindM, gets, setTranslationHistory, modify. cbn.
  destruct (localStorage_setItem env); split; reflexivity.
Qed.

(** X13. [deleteHistoryItem] removes every record with the given id (ids
    are clock readings and may repeat) and keeps the others: a record is in
    the history afterwards exactly when it was before and has another id.
    Deleting an id that no record has changes nothing, and so does deleting
    the same id a second time. *)
Theorem deleteHistoryItem_removes (env : Env) (recordId : Z) (w : World) :
  let w' := snd (deleteHistoryItem env recordId w) in
  (forall r : HistoryRecord.t,
      In r (translationHistory w') <->
      In r (translationHistory w) /\ HistoryRecord.id r <> recordId) /\
  (Forall (fun r => HistoryRecord.id r <> recordId) (translationHistory w) ->
   translationHistory w' = translationHistory w) /\
  translationHistory (snd (deleteHistoryItem env recordId w')) = translationHistory w' /\
  (length (translationHistory w') <= length (translationHistory w))%nat.
Proof.
  cbv zeta.
  destruct (deleteHistoryItem_history env recordId w) as [E _].
  destruct (deleteHistoryItem_history env recordId
              (snd (deleteHistoryItem env recordId w))) as [E' _].
  rewrite E', E. split; [|split; [|split]].
  - intros r. apply withoutRecord_In.
  - apply withoutRecord_absent.
  - apply withoutRecord_absent, Forall_forall.
    intros r Hr. now apply withoutRecord_In in Hr.
  - apply withoutRecord_length.
Qed.

Lemma firstn_short {A : Type} (l : list A) (n : nat) :
  (length l <= n)%nat -> firstn n l = l.
Proof. intros H. now apply firstn_all2. Qed.

Lemma loadHistory_mounted (stored : Stored) :
  translationHistory (snd (loadHistory (mounted stored)))
  = match stored with
    | StoredArray parsed => keepStored parsed
    | _ => []
    end.
Proof. destruct stored; reflexivity. Qed.

(** X14. The history survives a remount.  With a storage that accepts
    writes, after [prependToHistory] (the write of a successful
    translation), after [deleteHistoryItem] on a history of at most 10
    entries, and after [clearHistory], a component mounted on the storage
    they left loads exactly the history they left.  With a storage that
    refuses writes they still update the history and leave the storage as
    it was; and a stored item that is missing, does not parse or is no
    array loads as the empty history. *)
Theorem history_survives_remount (env : Env) (w : World) (record : HistoryRecord.t)
    (recordId : Z) :
  let remounted (w' : World) :=
    translationHistory (snd (loadHistory (mounted (storedHistory w')))) in
  (localStorage_setItem env = true ->
   remounted (snd (prependToHistory env record w))
     = translationHistory (snd (prependToHistory env record w)) /\
   (capped w ->
    remounted (snd (deleteHistoryItem env recordId w))
      = translationHistory (snd (deleteHistoryItem env recordId w))) /\
   remounted (snd (clearHistory env w)) = translationHistory (snd (clearHistory env w))) /\
  (localStorage_setItem env = false ->
   storedHistory (snd (prependToHistory env record w)) = storedHistory w /\
   translationHistory (snd (prependToHistory env record w))
     = keepLatest record (translationHistory w) /\
   storedHistory (snd (deleteHistoryItem env recordId w)) = storedHistory w /\
   storedHistory (snd (clearHistory env w)) = storedHistory w /\
   translationHistory (snd (clearHistory env w)) = []) /\
  (forall stored : Stored,
      (forall parsed, stored <> StoredArray parsed) ->
      fst (loadHistory (mounted stored)) = Ok tt /\
      translationHistory (snd (loadHistory (mounted stored))) = []).
Proof.
  cbv zeta. split; [|split].
  - intros Hw. rewrite !loadHistory_mounted.
    destruct (deleteHistoryItem_history env recordId w) as [Ed Es].
    rewrite Ed, Es.
    unfold prependToHistory, clearHistory, bindM, modify, setTranslationHistory.
    rewrite Hw. cbn [snd fst storedHistory translationHistory set_storedHistory
                       set_translationHistory].
    split; [|split].
    + apply firstn_short, keepLatest_length.
    + intros Hcap. apply firstn_short. unfold capped in Hcap.
      pose proof (withoutRecord_length recordId (translationHistory w)). lia.
    + reflexivity.
  - intros Hw.
    destruct (deleteHistoryItem_history env recordId w) as [_ Es].
    rewrite Es.
    unfold prependToHistory, clearHistory, bindM, modify, setTranslationHistory.
    rewrite Hw. now repeat split.
  - intros stored Hs. rewrite loadHistory_mounted.
    destruct stored; try (split; reflexivity).
    now destruct (Hs items).
Qed.

(** ** The interface texts *)

Section InterfaceTexts.

Import Translations.

Lemma digitsOf_append (s : string) :
  (fst (digitsOf s) ++ snd (digitsOf s))%string = s /\ digits (fst (digitsOf s)) = true.
Proof.
  induction s as [|c rest IH]; simpl; [now split|].
  destruct (isDigit c) eqn:Ec; [|now split].
  destruct (digitsOf rest) as [idx after]. simpl in *.
  destruct IH as [IH1 IH2]. rewrite IH1, Ec, IH2. now split.
Qed.

Lemma matchAt_shape (s idx : string) :
  matchAt s = Some idx ->
  exists after : string,
    s = ("{" ++ idx ++ "}" ++ after)%string /\ index idx = true.
Proof.
  unfold matchAt. destruct s as [|c rest]; [discriminate|].
  destruct (Ascii.eqb_spec c "{"); [subst c|discriminate].
  pose proof (digitsOf_append rest) as [Happ Hdig].
  destruct (digitsOf rest) as [[|d ds] [|c' after]]; try discriminate.
  destruct (Ascii.eqb_spec c' "}"); [subst c'|discriminate].
  intros [= <-]. exists after. simpl in *. split; [now rewrite <- Happ|exact Hdig].
Qed.

Lemma digitsOf_run (idx after : string) :
  digits idx = true -> digitsOf (idx ++ String "}" after) = (idx, String "}" after).
Proof.
  induction idx as [|c idx IH]; simpl; [reflexivity|].
  intros H. apply andb_true_iff in H as [Hc Hd]. now rewrite Hc, (IH Hd).
Qed.

Lemma matchAt_placeholder (idx after : string) :
  index idx = true -> matchAt ("{" ++ idx ++ "}" ++ after) = Some idx.
Proof.
  unfold index. intros H. apply andb_true_iff in H as [Hne Hd].
  simpl. rewrite (digitsOf_run idx after Hd).
  destruct idx; [discriminate|reflexivity].
Qed.

Lemma matchAt_plain (c : ascii) (rest : string) :
  Ascii.eqb c "{" = false -> matchAt (String c rest) = None.
Proof. intros H. simpl. now rewrite H. Qed.

Lemma append_assoc (a b c : string) : ((a ++ b) ++ c = a ++ (b ++ c))%string.
Proof. induction a as [|x a IH]; simpl; [reflexivity|now rewrite IH]. Qed.

Lemma length_append (a b : string) :
  String.length (a ++ b) = (String.length a + String.length b)%nat.
Proof. induction a as [|x a IH]; simpl; [reflexivity|now rewrite IH]. Qed.

Lemma replaceFrom_skip (args : list (option string)) (a b : string) :
  replaceFrom args (String.length a) (a ++ b) = replaceFrom args 0 b.
Proof. induction a as [|c a IH]; simpl; [reflexivity|exact IH]. Qed.

Lemma replaceFrom_plain (args : list (option string)) (pre s : string) :
  plain pre = true -> replaceFrom args 0 (pre ++ s) = (pre ++ replaceFrom args 0 s)%string.
Proof.
  induction pre as [|c pre IH]; [reflexivity|].
  intros H. simpl in H. apply andb_true_iff in H as [Hc Hp].
  apply negb_true_iff in Hc.
  change (String c pre ++ s)%string with (String c (pre ++ s)).
  cbn [replaceFrom]. rewrite (matchAt_plain c _ Hc), (IH Hp). reflexivity.
Qed.

Lemma replaceFrom_placeholder (args : list (option string)) (idx post : string) :
  index idx = true ->
  replaceFrom args 0 ("{" ++ idx ++ "}" ++ post)
  = (replacement args idx ++ replaceFrom args 0 post)%string.
Proof.
  intros H.
  change ("{" ++ idx ++ "}" ++ post)%string with (String "{" (idx ++ "}" ++ post)) at 1.
  cbn [replaceFrom].
  change (String "{" (idx ++ "}" ++ post)) with ("{" ++ idx ++ "}" ++ post)%string.
  rewrite (matchAt_placeholder idx post H).
  f_equal.
  assert (S (String.length idx) = String.length (idx ++ "}")) as ->
      by (rewrite length_append; simpl; lia).
  rewrite <- append_assoc. apply replaceFrom_skip.
Qed.

Lemma argument_undefined (args : list (option string)) (i : N) :
  Forall (fun a => a = None) args -> argument args i = None.
Proof.
  intros H. unfold argument. destruct (i <? N.of_nat (length args))%N; [|reflexivity].
  generalize (N.to_nat i). induction H as [|a args -> _ IH]; intros [|n]; simpl; auto.
Qed.

Lemma replaceFrom_unchanged (args : list (option string)) (s : string) :
  (Forall (fun a => a = None) args \/ plain s = true) ->
  forall (k : nat) (a b : string),
    s = (a ++ b)%string -> String.length a = k -> replaceFrom args k s = b.
Proof.
  induction s as [|c rest IH]; intros H k a b E Hk.
  - destruct a; [|discriminate]. simpl in E. now subst b.
  - assert (Forall (fun a => a = None) args \/ plain rest = true) as Hrest.
    { destruct H as [H|H]; [now left|right].
      simpl in H. now apply andb_true_iff in H. }
    destruct k as [|k].
    + destruct a; [|discriminate]. simpl in E. subst b. cbn [replaceFrom].
      destruct (matchAt (String c rest)) as [idx|] eqn:Em.
      * apply matchAt_shape in Em as (after & Es & Hidx).
        destruct H as [H|H].
        -- unfold replacement. rewrite (argument_undefined args _ H).
           rewrite Es. injection Es as -> ->.
           rewrite (IH Hrest (S (String.length idx)) (idx ++ "}")%string after).
           ++ now rewrite !append_assoc.
           ++ now rewrite append_assoc.
           ++ rewrite length_append. simpl. lia.
        -- rewrite Es in H. discriminate.
      * f_equal. now apply (IH Hrest 0%nat EmptyString rest).
    + destruct a as [|x a]; [discriminate|]. simpl in E, Hk.
      injection E as -> ->. injection Hk as Hk. cbn [replaceFrom].
      now apply (IH Hrest k a b).
Qed.

Lemma replace_unchanged (args : list (option string)) (s : string) :
  (Forall (fun a => a = None) args \/ plain s = true) -> replace args s = s.
Proof. intros H. now apply (replaceFrom_unchanged args s H 0%nat EmptyString s). Qed.

Lemma t_text (translations : Table) (lang key : string) (args : list (option string))
    (s : string) :
  text translations lang key = Ok s ->
  Translations.t translations lang key args = Ok (replace args s).
Proof.
  intros E. unfold Translations.t. rewrite E.
  destruct args as [|a args]; [|reflexivity].
  simpl. now rewrite replace_unchanged by (left; constructor).
Qed.

(** X15. [t] fills a placeholder from the argument with its number: in a
    text that reads [pre{idx}post], with no opening brace in [pre] and
    digits [idx], the placeholder becomes the text of argument number
    [idx] when that argument is given and defined, and stays as written
    otherwise; the argument's text is written as it is, braces included,
    and is not read for placeholders again; [post] is treated in the same
    way.  Calling [t] without arguments agrees with this. *)
Theorem t_fills_placeholders (translations : Table) (lang key : string)
    (args : list (option string)) (pre idx post : string) :
  text translations lang key = Ok (pre ++ "{" ++ idx ++ "}" ++ post)%string ->
  plain pre = true -> index idx = true ->
  Translations.t translations lang key args
  = Ok (pre
        ++ match argument args (parseInt idx) with
           | Some a => a
           | None => "{" ++ idx ++ "}"
           end
        ++ replace args post)%string.
Proof.
  intros E Hpre Hidx. rewrite (t_text _ _ _ _ _ E). unfold replace.
  rewrite (replaceFrom_plain args pre _ Hpre), (replaceFrom_placeholder args idx post Hidx).
  reflexivity.
Qed.

Lemma t_fills_placeholders_witness :
  Translations.t Recorded.sampleTable "de" "log_extract_frames" [Some "{1}"; Some "25"]%string
  = Ok "Extracting {1} frames at 25 FPS"%string.
Proof.
  exact (t_fills_placeholders Recorded.sampleTable "de" "log_extract_frames"
           [Some "{1}"; Some "25"]%string "Extracting " "0" " frames at {1} FPS"
           eq_refl eq_refl eq_refl).
Defined.

(** X16. [t] returns the text of the table unchanged when every argument
    is undefined (or none is given), whatever placeholders the text has,
    and when the text has no opening brace, whatever the arguments. *)
Theorem t_keeps_text (translations : Table) (lang key : string)
    (args : list (option string)) (s : string) :
  text translations lang key = Ok s ->
  Forall (fun a => a = None) args \/ plain s = true ->
  Translations.t translations lang key args = Ok s.
Proof.
  intros E H. rewrite (t_text _ _ _ _ _ E). now rewrite replace_unchanged.
Qed.

Lemma t_keeps_text_witness :
  Translations.t Recorded.sampleTable "en" "log_extract_frames" [None; None]
  = Ok "Extracting {0} frames at {1} FPS"%string /\
  Translations.t Recorded.sampleTable "de" "uploadButton" [Some "7"%string]
  = Ok "Hochladen"%string.
Proof.
  split.
  - apply (t_keeps_text Recorded.sampleTable "en" "log_extract_frames" [None; None]);
      [reflexivity|left; repeat constructor].
  - apply (t_keeps_text Recorded.sampleTable "de" "uploadButton" [Some "7"%string]);
      [reflexivity|right; reflexivity].
Defined.

Lemma present_not_empty (entry : option string) (s : string) :
  present entry = Some s -> s <> EmptyString.
Proof. destruct entry as [[|c r]|]; simpl; congruence. Qed.

(** X17. The lookup of [t] falls back from the language to English and
    from English to the key.  With an English table [t] never throws, and
    without arguments it returns a text that is not empty for a key that is
    not empty; for a language the table does not have, or a key that the
    language lacks or maps to the empty text, it answers as for English;
    where English lacks the key too it returns the key.  Without an English
    table it throws a [TypeError] exactly where it would fall back. *)
Theorem t_falls_back (translations : Table) (lang key : string)
    (args : list (option string)) :
  let own := match translations lang with
             | Some texts => texts key
             | None => None
             end in
  (forall en : Texts,
      translations "en"%string = Some en ->
      (exists s : string, Translations.t translations lang key args = Ok s) /\
      (exists s : string,
          Translations.t translations lang key [] = Ok s /\
          (key <> EmptyString -> s <> EmptyString)) /\
      (present own = None ->
       Translations.t translations lang key args
       = Translations.t translations "en" key args) /\
      (present own = None -> present (en key) = None ->
       Translations.t translations lang key [] = Ok key)) /\
  (translations "en"%string = None ->
   (present own = None ->
    Translations.t translations lang key args = Throw TypeError) /\
   (forall s : string, present own = Some s ->
                       Translations.t translations lang key [] = Ok s)).
Proof.
  cbv zeta. split.
  - intros en Hen.
    assert (exists s, text translations lang key = Ok s /\
                      (key <> EmptyString -> s <> EmptyString)) as (s & Es & Hs).
    { unfold text. rewrite Hen.
      destruct (present (match translations lang with
                         | Some texts => texts key
                         | None => None
                         end)) as [s|] eqn:Eo.
      - exists s. split; [reflexivity|]. intros _. now apply (present_not_empty _ _ Eo).
      - destruct (present (en key)) as [s|] eqn:Ee.
        + exists s. split; [reflexivity|]. intros _. now apply (present_not_empty _ _ Ee).
        + exists key. now split. }
    split; [|split; [|split]].
    + exists (replace args s). now apply t_text.
    + exists s. split; [|exact Hs]. unfold Translations.t. now rewrite Es.
    + intros Ho. unfold Translations.t, text. rewrite Ho, Hen.
      destruct (present (en key)); reflexivity.
    + intros Ho He. unfold Translations.t, text. rewrite Ho, Hen, He. reflexivity.
  - intros Hen. split.
    + intros Ho. unfold Translations.t, text. now rewrite Ho, Hen.
    + intros s Ho. unfold Translations.t, text. now rewrite Ho.
Qed.

End InterfaceTexts.

(** ** Running a handler step by step *)

Lemma bindM_ok {A B : Type} (m : M A) (k : A -> M B) (w : World) (a : A) (w1 : World) :
  m w = (Ok a, w1) -> bindM m k w = k a w1.
Proof. intros E. unfold bindM. now rewrite E. Qed.

Ltac run_step :=
  lazymatch goal with
  | |- context [@bindM ?A ?B ?m ?k ?w] =>
      erewrite (@bindM_ok A B m k w) by reflexivity
  end.

(** ** The frames of a recording *)

Section Recording.

Import Capture.

Lemma set_realtimeLandmarks_same (w : World) :
  set_realtimeLandmarks (realtimeLandmarks w) w = w.
Proof. now destruct w. Qed.

Lemma tick_run (sent : option HandsResults) (w : World) :
  tick sent w
  = (Ok tt, set_realtimeLandmarks (realtimeLandmarks w ++ encoded [sent]) w).
Proof.
  unfold tick, encoded, Capture.onResults, tryCatch, bindM, lift, modify, ret.
  destruct sent as [results|]; simpl.
  - destruct (extractTwoHandLandmarks results) as [frame|e]; simpl.
    + reflexivity.
    + now rewrite app_nil_r, set_realtimeLandmarks_same.
  - now rewrite app_nil_r, set_realtimeLandmarks_same.
Qed.

Lemma encoded_cons (first : option HandsResults) (rest : list (option HandsResults)) :
  encoded (first :: rest) = encoded [first] ++ encoded rest.
Proof. unfold encoded. simpl. now rewrite app_nil_r. Qed.

Lemma ticks_run (sent : list (option HandsResults)) (w : World) :
  ticks sent w
  = (Ok tt, set_realtimeLandmarks (realtimeLandmarks w ++ encoded sent) w).
Proof.
  revert w. induction sent as [|first rest IH]; intros w.
  - simpl. unfold ret. now rewrite app_nil_r, set_realtimeLandmarks_same.
  - cbn [ticks]. unfold bindM. rewrite tick_run, IH, (encoded_cons first rest).
    cbn [realtimeLandmarks set_realtimeLandmarks]. now rewrite app_assoc.
Qed.

Lemma recording_run (ready : bool) (sent : list (option HandsResults))
    (recordedFile : outcome string) (w : World) :
  recording ready sent recordedFile w
  = (Ok tt,
     let frames := (if ready then [] else realtimeLandmarks w) ++ encoded sent in
     match recordedFile with
     | Ok name => set_file (Some name) (set_realtimeLandmarks frames w)
     | Throw _ => set_realtimeLandmarks frames w
     end).
Proof.
  unfold recording, startRealtimeLandmarkExtraction, bindM.
  destruct ready; unfold modify, ret; rewrite ticks_run;
    destruct recordedFile; reflexivity.
Qed.


Lemma encoded_frames (sent : list (option HandsResults)) :
  Forall (fun s => forall results, s = Some results -> wellFormed results) sent ->
  Forall frameOfNumbers (encoded sent).
Proof.
  induction 1 as [|first rest Hf _ IH]; [constructor|].
  rewrite encoded_cons. apply Forall_app. split; [|exact IH].
  unfold encoded. simpl. destruct first as [results|]; [|constructor].
  destruct (extractTwoHandLandmarks results) as [frame|e] eqn:E; [|constructor].
  repeat constructor. exact (frameOfNumbers_encoded results frame (Hf results eq_refl) E).
Qed.


(** ** From the recording to the request *)

Lemma useRealtimeLandmarks_ok (env : Env) (frames : list jsval) (rows : list (list jsval))
    (w : World) :
  mapE flat (normalize frames MAX_SEQ_LEN) = Ok rows ->
  useRealtimeLandmarks env frames w = (Ok rows, snd (useRealtimeLandmarks env frames w)) /\
  requests (snd (useRealtimeLandmarks env frames w)) = requests w.
Proof.
  intros E.
  destruct (useRealtimeLandmarks_run env frames w) as [H _].
  rewrite normalizeLive_normalize, E in H.
  assert (respects sameRequests (useRealtimeLandmarks env frames)) as Hr
    by (apply respects_useRealtimeLandmarks; try typeclasses eauto; same).
  split.
  - destruct (useRealtimeLandmarks env frames w) as [o w1]. simpl in *. now subst o.
  - apply Hr.
Qed.

Lemma doFetch_requests {B : Type} (env : Env) (request : Request.t)
    (k : Response.t -> M B) (w : World) :
  (forall response, respects sameRequests (k response)) ->
  requests (snd ((response <- doFetch env request ;; k response) w))
  = requests w ++ [request].
Proof.
  intros Hk. unfold doFetch, bindM, modify, lift. simpl.
  destruct (fetch env request) as [response|e]; [|reflexivity].
  exact (Hk response (set_requests (requests w ++ [request]) w)).
Qed.

Lemma requesting_live_requests (env : Env) (c w0 : World) (rows : list (list jsval)) :
  inputMode c = record -> realtimeLandmarks w0 <> [] ->
  mapE flat (normalize (realtimeLandmarks w0) MAX_SEQ_LEN) = Ok rows ->
  requests (snd (App.requesting env c w0))
  = requests w0 ++ [{| Request.url := BACKEND_URL;
                       Request.landmarks := rows;
                       Request.method := "reranked_s2g_beam_g2t" |}].
Proof.
  intros Hmode Hframes Hrows. unfold App.requesting. rewrite Hmode.
  do 4 run_step.
  cbn [realtimeLandmarks set_extractionLog set_currentStage set_clockReads].
  assert ((len (realtimeLandmarks w0) >? 0) = true) as ->.
  { destruct (realtimeLandmarks w0); [contradiction|].
    unfold len. simpl. apply Z.gtb_lt. lia. }
  match goal with
  | |- context [bindM (useRealtimeLandmarks env ?frames) ?k ?w] =>
      destruct (useRealtimeLandmarks_ok env frames rows w Hrows) as [Erun Ereq];
      rewrite (bindM_ok _ k w rows _ Erun)
  end.
  do 2 run_step.
  rewrite doFetch_requests.
  - cbn [requests set_extractionLog set_currentStage set_clockReads].
    rewrite Ereq. reflexivity.
  - intros response. apply respects_bind; [typeclasses eauto| |intros _; respect].
    destruct (negb (Response.ok response)); [|respect].
    apply respects_rejectResponse. typeclasses eauto.
Qed.

Lemma translate_requests (env : Env) (c w : World) (requesting : M (option Data.t))
    (completing : option Data.t -> M unit) :
  (forall data, respects sameRequests (completing data)) ->
  requests (snd ((starting c ;;
                  tryCatchFinally (data <- requesting ;; completing data)
                                  (failed env) (settled env c)) w))
  = requests (snd (requesting (snd (starting c w)))).
Proof.
  intros Hcomp. rewrite translate_body.
  destruct (tryCatchFinally_settled env c (data <- requesting ;; completing data)
              (snd (starting c w))) as (w2 & -> & Hw2).
  destruct (settled_state env c w2) as (_ & _ & _ & _ & _ & Hr & _).
  rewrite Hr. unfold bindM in Hw2.
  destruct (requesting (snd (starting c w))) as [[data|e] w1]; cbn [snd].
  - specialize (Hcomp data w1).
    destruct Hw2 as [E|(e & w1' & E & ->)]; rewrite E in Hcomp; exact Hcomp.
  - destruct Hw2 as [E|(e' & w1' & [= <- <-] & ->)]; [discriminate|reflexivity].
Qed.

(** X19. From the recording to the request: in record mode, after a
    recording that left a clip and whose detector results have 21 keypoints
    per hand and gave at least one frame, [handleTranslate] (App.jsx) sends
    exactly one request, whatever the environment: to the backend, with the
    fixed method, and with the recorded frames normalized to 190 rows of
    126 numbers each. *)
Theorem recorded_frames_are_sent (env : Env) (w : World)
    (sent : list (option HandsResults)) (name : string) :
  inputMode w = record ->
  Forall (fun s => forall results, s = Some results -> wellFormed results) sent ->
  encoded sent <> [] ->
  exists rows : list (list jsval),
    mapE flat (normalize (encoded sent) MAX_SEQ_LEN) = Ok rows /\
    length rows = 190%nat /\ Forall rowOfNumbers rows /\
    requests (snd (App.handleTranslate env (snd (recording true sent (Ok name) w))))
    = requests w ++ [{| Request.url := BACKEND_URL;
                        Request.landmarks := rows;
                        Request.method := "reranked_s2g_beam_g2t" |}].
Proof.
  intros Hmode Hsent Hsome.
  pose proof (encoded_frames sent Hsent) as Hframes.
  destruct (mapE_flat_rows (normalize (encoded sent) MAX_SEQ_LEN)) as (rows & Er & _).
  { apply Forall_forall. intros frame Hin.
    apply normalize_elements in Hin as [Hin|[-> _]].
    - rewrite Forall_forall in Hframes. now apply Hframes.
    - apply frameOfNumbers_padFrame. }
  exists rows. destruct (normalized_rows _ _ Er) as [Hlen Hnum].
  split; [exact Er|]. split; [exact Hlen|]. split; [now apply Hnum|].
  rewrite recording_run. cbn [snd app].
  set (w1 := set_file (Some name) (set_realtimeLandmarks (encoded sent) w)).
  change (App.handleTranslate env w1) with (App.translate env w1 w1).
  unfold App.translate. cbn [file w1 set_file].
  unfold App.translating. rewrite translate_requests
    by (intros data; apply completing_sameRequests).
  assert (realtimeLandmarks (snd (starting w1 w1)) = encoded sent /\
          requests (snd (starting w1 w1)) = requests w) as [Hl Hq]
    by (unfold starting; destruct (isCameraActive w1); split; reflexivity).
  rewrite (requesting_live_requests env w1 _ rows).
  - now rewrite Hq.
  - exact Hmode.
  - now rewrite Hl.
  - now rewrite Hl.
Qed.

Lemma recorded_frames_are_sent_witness :
  exists rows : list (list jsval),
    mapE flat (normalize (encoded Recorded.sampleFrames) MAX_SEQ_LEN) = Ok rows /\
    length rows = 190%nat /\ Forall rowOfNumbers rows /\
    requests (snd (App.handleTranslate (browser (Throw "no detector") (Ok translated) true)
                     (snd (recording true Recorded.sampleFrames (Ok "recording-1.webm"%string)
                             (mounted NoItem)))))
    = [{| Request.url := BACKEND_URL;
          Request.landmarks := rows;
          Request.method := "reranked_s2g_beam_g2t" |}].
Proof.
  apply (recorded_frames_are_sent (browser (Throw "no detector") (Ok translated) true)
           (mounted NoItem) Recorded.sampleFrames "recording-1.webm").
  - reflexivity.
  - repeat constructor; intros results [= <-] lms [= <-]; repeat constructor.
  - vm_compute. discriminate.
Defined.

End Recording.

(** ** The request of an uploaded clip *)

Lemma stateless_ret {A : Type} (a : A) : stateless (ret a).
Proof. intros w w'. reflexivity. Qed.

Lemma stateless_lift {A : Type} (o : outcome A) : stateless (lift o).
Proof. intros w w'. reflexivity. Qed.

Lemma stateless_throw {A : Type} (e : string) : stateless (@throw A e).
Proof. intros w w'. reflexivity. Qed.

Lemma stateless_modify (f : World -> World) : stateless (modify f).
Proof. intros w w'. reflexivity. Qed.

Lemma stateless_bind {A B : Type} (m : M A) (k : A -> M B) :
  stateless m -> (forall a, stateless (k a)) -> stateless (bindM m k).
Proof.
  intros Hm Hk w w'. unfold bindM. specialize (Hm w w').
  destruct (m w) as [[a|e] w1], (m w') as [[a'|e'] w1']; simpl in Hm; try discriminate.
  - injection Hm as <-. apply Hk.
  - injection Hm as <-. reflexivity.
Qed.

Lemma stateless_tryCatch {A : Type} (body : M A) (handler : string -> M A) :
  stateless body -> (forall e, stateless (handler e)) -> stateless (tryCatch body handler).
Proof.
  intros Hb Hh w w'. unfold tryCatch. specialize (Hb w w').
  destruct (body w) as [[a|e] w1], (body w') as [[a'|e'] w1']; simpl in Hb; try discriminate.
  - exact Hb.
  - injection Hb as <-. apply Hh.
Qed.

Lemma stateless_iterateM {S : Type} (body : Z -> S -> M S) (n : nat) :
  (forall i s, stateless (body i s)) -> forall i s, stateless (iterateM n i body s).
Proof.
  intros Hb. induction n as [|n IH]; intros i s; simpl.
  - apply stateless_ret.
  - apply stateless_bind; [apply Hb|intros s'; apply IH].
Qed.

Lemma stateless_addLog (env : Env) (message : string) : stateless (addLog env message).
Proof. intros w w'. reflexivity. Qed.

Ltac stateless_steps :=
  repeat first
    [ apply stateless_addLog
    | apply stateless_ret
    | apply stateless_lift
    | apply stateless_throw
    | apply stateless_modify
    | apply stateless_bind; [|intros ?]
    | match goal with |- stateless (if ?b then _ else _) => destruct b end ].

Lemma stateless_extractLandmarksFromVideo (env : Env) :
  stateless (App.extractLandmarksFromVideo env).
Proof.
  unfold App.extractLandmarksFromVideo.
  apply stateless_tryCatch; [|intros e; apply stateless_throw].
  apply stateless_bind; [apply stateless_addLog|intros _].
  apply stateless_bind; [apply stateless_lift|intros _].
  apply stateless_bind; [apply stateless_addLog|intros _].
  apply stateless_bind; [apply stateless_lift|intros v].
  cbv zeta.
  apply stateless_bind; [apply stateless_addLog|intros _].
  apply stateless_bind; [apply stateless_addLog|intros _].
  apply stateless_bind.
  - unfold for_loopM. apply stateless_iterateM. intros i st.
    unfold App.onResults, setProgress. cbv zeta. stateless_steps.
  - intros st. unfold setProgress. stateless_steps.
Qed.

Lemma requesting_batch_requests (env : Env) (c w0 w : World) :
  inputMode c = upload \/ realtimeLandmarks w0 = [] ->
  requests (snd (App.requesting env c w0))
  = match fst (App.extractLandmarksFromVideo env w) with
    | Ok rows => requests w0 ++ [{| Request.url := BACKEND_URL;
                                    Request.landmarks := rows;
                                    Request.method := "reranked_s2g_beam_g2t" |}]
    | Throw _ => requests w0
    end.
Proof.
  intros Hbatch. unfold App.requesting.
  do 4 run_step.
  cbn [realtimeLandmarks set_extractionLog set_currentStage set_clockReads].
  match goal with
  | |- context [bindM ?m ?k ?w1] =>
      assert (m = (flatLandmarks <- App.extractLandmarksFromVideo env ;;
                   setProgress 50 ;; ret flatLandmarks)) as ->
  end.
  { destruct Hbatch as [->| ->]; [reflexivity|]. destruct (inputMode c); reflexivity. }
  set (w1 := set_extractionLog _ _).
  pose proof (stateless_extractLandmarksFromVideo env w1 w) as Hs.
  assert (requests (snd (App.extractLandmarksFromVideo env w1)) = requests w0) as Hq.
  { assert (respects sameRequests (App.extractLandmarksFromVideo env)) as Hr
      by (apply respects_extractLandmarksFromVideo; try typeclasses eauto; same).
    exact (Hr w1). }
  rewrite <- Hs.
  destruct (App.extractLandmarksFromVideo env w1) as [[rows|e] w2] eqn:E; cbn [fst snd] in *.
  - rewrite (bindM_ok (flatLandmarks <- App.extractLandmarksFromVideo env ;;
                       setProgress 50 ;; ret flatLandmarks) _ w1 rows (set_progress 50 w2))
      by (unfold bindM; rewrite E; reflexivity).
    do 2 run_step.
    rewrite doFetch_requests.
    + cbn [requests set_extractionLog set_currentStage set_clockReads set_progress].
      now rewrite Hq.
    + intros response. apply respects_bind; [typeclasses eauto| |intros _; respect].
      destruct (negb (Response.ok response)); [|respect].
      apply respects_rejectResponse. typeclasses eauto.
  - unfold bindM. rewrite E. exact Hq.
Qed.

(** X20. With a clip present, in upload mode and in record mode with an
    empty accumulator, [handleTranslate] (App.jsx) sends a request exactly
    when the batch extractor returns, and then one request with the rows it returned; when
    the extractor throws (the detector does not start, the video is
    missing, a frame cannot be encoded) nothing is sent.  The outcome of
    the extractor does not depend on the component state. *)
Theorem upload_request_follows_extraction (env : Env) (w : World) :
  file w <> None -> inputMode w = upload \/ realtimeLandmarks w = [] ->
  requests (snd (App.handleTranslate env w))
  = match fst (App.extractLandmarksFromVideo env w) with
    | Ok rows => requests w ++ [{| Request.url := BACKEND_URL;
                                   Request.landmarks := rows;
                                   Request.method := "reranked_s2g_beam_g2t" |}]
    | Throw _ => requests w
    end.
Proof.
  intros Hfile Hbatch.
  change (App.handleTranslate env w) with (App.translate env w w).
  unfold App.translate. destruct (file w); [clear Hfile|contradiction].
  unfold App.translating. rewrite translate_requests
    by (intros data; apply completing_sameRequests).
  assert (realtimeLandmarks (snd (starting w w)) = realtimeLandmarks w /\
          requests (snd (starting w w)) = requests w) as [Hl Hq]
    by (unfold starting; destruct (isCameraActive w); split; reflexivity).
  rewrite (requesting_batch_requests env w _ w), Hq; [reflexivity|].
  destruct Hbatch as [H|H]; [now left|right; now rewrite Hl].
Qed.

Lemma upload_request_follows_extraction_witness :
  requests (snd (App.handleTranslate (browser (Throw "Failed to load MediaPipe")
                                        (Ok translated) true) (uploaded [])))
  = [] /\
  length (requests (snd (App.handleTranslate (browser (Ok tt) (Ok translated) true)
                           (uploaded []))))
  = 1%nat.
Proof.
  split.
  - rewrite (upload_request_follows_extraction
               (browser (Throw "Failed to load MediaPipe") (Ok translated) true)
               (uploaded []));
      [reflexivity|discriminate|left; reflexivity].
  - rewrite (upload_request_follows_extraction
               (browser (Ok tt) (Ok translated) true) (uploaded []));
      [reflexivity|discriminate|left; reflexivity].
Defined.

(** ** What the batch extractor writes *)

#[local] Instance batchWrites_preorder : PreOrder batchWrites.
Proof.
  split.
  - intros w. exists [], (progress w), 0%nat. destruct w. simpl.
    now rewrite app_nil_r, Nat.add_0_r.
  - intros a b c (e1 & p1 & n1 & ->) (e2 & p2 & n2 & ->).
    exists (e1 ++ e2), p2, (n1 + n2)%nat. destruct a. simpl.
    now rewrite app_assoc, Nat.add_assoc.
Qed.

#[local] Instance clockOnly_preorder : PreOrder clockOnly.
Proof.
  split.
  - intros w. exists 0%nat. destruct w. simpl. now rewrite Nat.add_0_r.
  - intros a b c (n1 & ->) (n2 & ->). exists (n1 + n2)%nat. destruct a. simpl.
    now rewrite Nat.add_assoc.
Qed.

Lemma batchWrites_readClock {A : Type} (read : nat -> A) :
  respects batchWrites (readClock read).
Proof.
  intros w. exists [], (progress w), 1%nat. destruct w. simpl.
  now rewrite app_nil_r, Nat.add_1_r.
Qed.

Lemma clockOnly_readClock {A : Type} (read : nat -> A) :
  respects clockOnly (readClock read).
Proof. intros w. exists 1%nat. destruct w. simpl. now rewrite Nat.add_1_r. Qed.

Lemma batchWrites_appendLog (entry : string) : respects batchWrites (appendLog entry).
Proof.
  intros w. exists [entry], (progress w), 0%nat. destruct w. simpl.
  now rewrite Nat.add_0_r.
Qed.

Lemma batchWrites_setProgress (v : Z) : respects batchWrites (setProgress v).
Proof.
  intros w. exists [], v, 0%nat. destruct w. simpl.
  now rewrite app_nil_r, Nat.add_0_r.
Qed.

Ltac writes :=
  repeat
    first
      [ apply batchWrites_readClock
      | apply clockOnly_readClock
      | apply batchWrites_appendLog
      | apply batchWrites_setProgress
      | apply respects_ret; typeclasses eauto
      | apply respects_throw; typeclasses eauto
      | apply respects_lift; typeclasses eauto
      | apply respects_bind; [typeclasses eauto| |intros ?]
      | apply respects_tryCatch; [typeclasses eauto| |intros ?]
      | apply respects_for_loopM; [typeclasses eauto|intros ? ?]
      | match goal with
        | |- respects _ (if ?b then _ else _) => destruct b
        | |- respects _ (let _ := _ in _) => cbv zeta
        end ].

(** X21. The batch extractor writes little.  In App.jsx it reads the clock,
    appends entries to the log and sets the progress, and leaves every
    other part of the state as it was: the entries already in the log, the
    clip, the results, the error, the history, the storage, the requests,
    the camera flag and the accumulator.  In part_000 it only reads the
    clock: its log entries are returned, not written. *)
Theorem extraction_writes (env : Env) (w : World) :
  (exists (entries : list string) (shown : Z) (reads : nat),
      snd (App.extractLandmarksFromVideo env w)
      = set_progress shown
          (set_extractionLog (extractionLog w ++ entries)
             (set_clockReads (clockReads w + reads) w))) /\
  (exists reads : nat,
      snd (Part000.extractLandmarksFromVideo env w)
      = set_clockReads (clockReads w + reads) w).
Proof.
  split.
  - assert (respects batchWrites (App.extractLandmarksFromVideo env)) as H; [|apply H].
    unfold App.extractLandmarksFromVideo, App.onResults, addLog, stamped, now. writes.
  - assert (respects clockOnly (Part000.extractLandmarksFromVideo env)) as H; [|apply H].
    unfold Part000.extractLandmarksFromVideo, stamped, now. writes.
Qed.
